(** * Serac nonlinear solid solver: constitutive models, set-up and time stepping

    A shallow embedding of the parts of [src/solvers/nonlinear_solid_solver.cpp]
    that the specification talks about:

    - the material models [LinearIsotropic], [NeoHookean] and [J2]
      ([solid_functional_material.hpp]),
    - the boundary conditions in [NonlinearSolidSolver::CompleteSetup], and
      [NonlinearSolidSolver::AdvanceTimestep],
    - [ThermalConductionFunctional::advanceTimestep] and the Jacobian
      callback that [ThermalConductionFunctional::completeSetup] installs
      for the dynamic regime,

    and of what stands beside them: the choice of the linear solver at the
    end of [CompleteSetup], [setTemperature], runs of several steps, and the
    kernels and the launch of the CUDA test of [QuadratureData].

    Numbers: a C++ [double] is read in two ways.  In the first it is a real
    number of the Standard Library ([R]), so arithmetic is exact: rounding,
    infinities and NaN are outside this reading, a division by zero and the
    logarithm of a number that is not positive have no meaning in it, and
    comparisons of doubles become the decidable comparisons of [R].  The
    statements made in it say which branch the code takes and which
    expression it returns, or they are kept by rounding.  In the second
    reading, [Binary64], a [double] is a binary64 number and every operation
    rounds as the hardware does; what is said there about the material models
    holds of the program bit for bit, and the statements that rounding breaks
    are refuted there. *)

From Stdlib Require Import Reals Lra Lia List ZArith Bool Arith String.
From Stdlib Require Import Sorted Permutation.
From Stdlib Require Floats.
Import ListNotations.

Local Open Scope R_scope.

(** [double], read as an exact real. *)
Abbreviation double := R (only parsing).

(* ================================================================== *)
(** ** Tensors *)

Module Tensor.

(** [tensor<double, dim, dim>]: the entry [A[i][j]] is [A i j]; only the
    entries with [i, j < dim] belong to the C++ value, and no operation
    below reads another entry to produce one of them. *)
Definition tensor : Type := nat -> nat -> double.

(** The loop [for (k = 0; k < n; k++) total += f(k)]. *)
Fixpoint sum_upto (n : nat) (f : nat -> double) : double :=
  match n with
  | O => 0
  | S k => sum_upto k f + f k
  end.

(** [tensor<double, dim, dim>{}], every entry zero. *)
Definition zero_tensor : tensor := fun _ _ => 0.

(** Modelled from the spec: [Identity<dim>()] of the tensor library, which is
    not among the sources; the unit tensor, one on the diagonal. *)
Definition Identity : tensor := fun i j => if Nat.eqb i j then 1 else 0.

(** Modelled from the spec: [transpose] of the tensor library. *)
Definition transpose (A : tensor) : tensor := fun i j => A j i.

(** Modelled from the spec: the operators [A + B], [A - B], [c * A] and
    [A / c] of the tensor library, which act entry by entry. *)
Definition tensor_add (A B : tensor) : tensor := fun i j => A i j + B i j.
Definition tensor_sub (A B : tensor) : tensor := fun i j => A i j - B i j.
Definition tensor_scale (c : double) (A : tensor) : tensor := fun i j => c * A i j.
Definition tensor_div (A : tensor) (c : double) : tensor := fun i j => A i j / c.

(** Modelled from the spec: [A * B] of two square tensors in the tensor
    library, the matrix product. *)
Definition dot (dim : nat) (A B : tensor) : tensor :=
  fun i j => sum_upto dim (fun k => A i k * B k j).

(** Modelled from the spec: [tr], the sum of the diagonal entries. *)
Definition tr (dim : nat) (A : tensor) : double := sum_upto dim (fun i => A i i).

(** Modelled from the spec: [det] of the tensor library, which is written out
    for 2x2 and 3x3 tensors only; another [dim] does not compile, and the
    value given for it here is never used by a statement. *)
Definition det (dim : nat) (A : tensor) : double :=
  match dim with
  | 2%nat => A 0%nat 0%nat * A 1%nat 1%nat - A 0%nat 1%nat * A 1%nat 0%nat
  | 3%nat =>
      A 0%nat 0%nat * A 1%nat 1%nat * A 2%nat 2%nat
      + A 0%nat 1%nat * A 1%nat 2%nat * A 2%nat 0%nat
      + A 0%nat 2%nat * A 1%nat 0%nat * A 2%nat 1%nat
      - A 0%nat 0%nat * A 1%nat 2%nat * A 2%nat 1%nat
      - A 0%nat 1%nat * A 1%nat 0%nat * A 2%nat 2%nat
      - A 0%nat 2%nat * A 1%nat 1%nat * A 2%nat 0%nat
  | _ => 0
  end.

(** Modelled from the spec: [sym], the symmetric part [0.5 * (A + A^T)]. *)
Definition sym (A : tensor) : tensor := fun i j => 0.5 * (A i j + A j i).

(** Modelled from the spec: [dev], the deviatoric part: [tr(A) / dim] is
    taken off every diagonal entry. *)
Definition dev (dim : nat) (A : tensor) : tensor :=
  fun i j => if Nat.eqb i j then A i j - tr dim A / INR dim else A i j.

(** Modelled from the spec: [squared_norm] and [norm], the Frobenius norm. *)
Definition squared_norm (dim : nat) (A : tensor) : double :=
  sum_upto dim (fun i => sum_upto dim (fun j => A i j * A i j)).

Definition norm (dim : nat) (A : tensor) : double := sqrt (squared_norm dim A).

(** Modelled from the spec: [normalize], the spec's unit(relative-stress):
    [A / norm(A)]. *)
Definition normalize (dim : nat) (A : tensor) : tensor := tensor_div A (norm dim A).

End Tensor.

Import Tensor.

Declare Scope tensor_scope.
Delimit Scope tensor_scope with tensor.
Infix "+t" := tensor_add (at level 50, left associativity) : tensor_scope.
Infix "-t" := tensor_sub (at level 50, left associativity) : tensor_scope.
Infix "*:" := tensor_scale (at level 40, left associativity) : tensor_scope.
Local Open Scope tensor_scope.

(* ================================================================== *)
(** ** The material models of [serac::solid_mechanics] *)

(** [LinearIsotropic]: no internal variables ([State = Empty]). *)
Module LinearIsotropic.

Record material : Type := {
  density : double;  (* mass density *)
  K : double;        (* bulk modulus *)
  G : double         (* shear modulus *)
}.

(** [operator()(State&, const tensor<T, dim, dim>& du_dX)]. *)
Definition stress (dim : nat) (m : material) (du_dX : tensor) : tensor :=
  let I := Identity in
  let lambda := K m - (2 / 3) * G m in
  let epsilon := 0.5 *: (transpose du_dX +t du_dX) in
  (lambda * tr dim epsilon) *: I +t (2 * G m) *: epsilon.

End LinearIsotropic.

(** [NeoHookean]: no internal variables either. *)
Module NeoHookean.

Record material : Type := {
  density : double;
  K : double;
  G : double
}.

(** [operator()(State&, const tensor<T, dim, dim>& du_dX)]; [log] is the
    natural logarithm. *)
Definition stress (dim : nat) (m : material) (du_dX : tensor) : tensor :=
  let I := Identity in
  let lambda := K m - (2 / 3) * G m in
  let B_minus_I := dot dim du_dX (transpose du_dX) +t transpose du_dX +t du_dX in
  (lambda * ln (det dim (I +t du_dX))) *: I +t G m *: B_minus_I.

End NeoHookean.

(** [J2]: linear isotropic and kinematic hardening, written for 3D. *)
Module J2.

Definition dim : nat := 3.

Record material : Type := {
  E : double;        (* Young's modulus *)
  nu : double;       (* Poisson's ratio *)
  Hi : double;       (* isotropic hardening constant *)
  Hk : double;       (* kinematic hardening constant *)
  sigma_y : double;  (* yield stress *)
  density : double   (* mass density *)
}.

(** [J2::State], the variables of the hysteresis response. *)
Record State : Type := {
  beta : tensor;                        (* back-stress tensor *)
  plastic_strain : tensor;              (* plastic strain *)
  accumulated_plastic_strain : double   (* incremental plastic strain *)
}.

(** [operator()(State& state, const T du_dX)]: the state is passed by
    reference and written in place, so the embedding returns the stress
    together with the state the call leaves behind.  [get_value] is the
    identity on doubles. *)
Definition stress (m : material) (state : State) (du_dX : tensor) : tensor * State :=
  let I := Identity in
  let K := E m / (3 * (1 - 2 * nu m)) in
  let G := 0.5 * E m / (1 + nu m) in
  (* (i) elastic predictor *)
  let el_strain := sym du_dX -t plastic_strain state in
  let p := K * tr dim el_strain in
  let s := (2 * G) *: dev dim el_strain in
  let eta := s -t beta state in
  let q := sqrt (3 / 2) * norm dim eta in
  let phi := q - (sigma_y m + Hi m * accumulated_plastic_strain state) in
  (* (ii) admissibility *)
  if Rlt_dec 0 phi then
    let plastic_strain_inc := phi / (3 * G + Hk m + Hi m) in
    let eta := normalize dim eta in
    (* (iii) return mapping *)
    let s := s -t (sqrt 6 * G * plastic_strain_inc) *: eta in
    let state :=
      {| accumulated_plastic_strain := accumulated_plastic_strain state + plastic_strain_inc;
         plastic_strain := plastic_strain state +t (sqrt (3 / 2) * plastic_strain_inc) *: eta;
         beta := beta state +t (sqrt (2 / 3) * Hk m * plastic_strain_inc) *: eta |} in
    (s +t p *: I, state)
  else
    (s +t p *: I, state).

(** The quantities of the elastic predictor by name, as functions of the
    material, the committed state and the displacement gradient. *)
Definition bulk (m : material) : double := E m / (3 * (1 - 2 * nu m)).
Definition shear (m : material) : double := 0.5 * E m / (1 + nu m).
Definition el_strain (state : State) (du_dX : tensor) : tensor :=
  sym du_dX -t plastic_strain state.
Definition p (m : material) (state : State) (du_dX : tensor) : double :=
  bulk m * tr dim (el_strain state du_dX).
Definition s (m : material) (state : State) (du_dX : tensor) : tensor :=
  (2 * shear m) *: dev dim (el_strain state du_dX).
Definition eta (m : material) (state : State) (du_dX : tensor) : tensor :=
  s m state du_dX -t beta state.
Definition q (m : material) (state : State) (du_dX : tensor) : double :=
  sqrt (3 / 2) * norm dim (eta m state du_dX).
Definition phi (m : material) (state : State) (du_dX : tensor) : double :=
  q m state du_dX - (sigma_y m + Hi m * accumulated_plastic_strain state).
Definition plastic_strain_inc (m : material) (state : State) (du_dX : tensor) : double :=
  phi m state du_dX / (3 * shear m + Hk m + Hi m).

(** The state that the return mapping (iii) writes. *)
Definition returned_state (m : material) (state : State) (du_dX : tensor) : State :=
  let inc := plastic_strain_inc m state du_dX in
  let n := normalize dim (eta m state du_dX) in
  {| beta := beta state +t (sqrt (2 / 3) * Hk m * inc) *: n;
     plastic_strain := plastic_strain state +t (sqrt (3 / 2) * inc) *: n;
     accumulated_plastic_strain := accumulated_plastic_strain state + inc |}.

(** The state every quadrature point starts from. *)
Definition zero_state : State :=
  {| beta := zero_tensor; plastic_strain := zero_tensor; accumulated_plastic_strain := 0 |}.

End J2.

(** Concrete materials, states and displacement gradients. *)
Module Examples.

Definition diag (a b c : double) : tensor :=
  fun i j =>
    match i, j with
    | 0%nat, 0%nat => a
    | 1%nat, 1%nat => b
    | 2%nat, 2%nat => c
    | _, _ => 0
    end.

(** Shear modulus 1, bulk modulus 2/3, yield stress 3, no hardening. *)
Definition steel : J2.material :=
  {| J2.E := 2; J2.nu := 0; J2.Hi := 0; J2.Hk := 0; J2.sigma_y := 3; J2.density := 1 |}.

End Examples.

(* ================================================================== *)
(** ** The material models in binary64 *)

(** The same three operators with [double] read as the binary64 numbers of
    the kernel: every operation rounds to nearest, ties to even, as the
    hardware does, [sqrt] is correctly rounded, and infinities and NaN are
    values.  What a statement about exact equality of doubles says of the
    program is decided here. *)
Module Binary64.

Import PrimFloat.
Local Open Scope float_scope.

(** [tensor<double, dim, dim>]. *)
Definition tensor : Type := nat -> nat -> float.

(** The loop [for (k = 0; k < n; k++) total = total + f(k)]. *)
Fixpoint accumulate (n : nat) (f : nat -> float) (total : float) : float :=
  match n with
  | O => total
  | S k => accumulate k f total + f k
  end.

Definition zero_tensor : tensor := fun _ _ => 0.

(** Modelled from the spec: the helpers of the tensor library, which is not
    among the sources, each with the loop its definition is read as. *)
Definition Identity : tensor := fun i j => if Nat.eqb i j then 1 else 0.

Definition transpose (A : tensor) : tensor := fun i j => A j i.

Definition tensor_add (A B : tensor) : tensor := fun i j => A i j + B i j.
Definition tensor_sub (A B : tensor) : tensor := fun i j => A i j - B i j.
Definition tensor_scale (c : float) (A : tensor) : tensor := fun i j => c * A i j.
Definition tensor_div (A : tensor) (c : float) : tensor := fun i j => A i j / c.

Definition dot (dim : nat) (A B : tensor) : tensor :=
  fun i j => accumulate dim (fun k => A i k * B k j) 0.

Definition tr (dim : nat) (A : tensor) : float := accumulate dim (fun i => A i i) 0.

Definition det (dim : nat) (A : tensor) : float :=
  match dim with
  | 2%nat => A 0%nat 0%nat * A 1%nat 1%nat - A 0%nat 1%nat * A 1%nat 0%nat
  | 3%nat =>
      A 0%nat 0%nat * A 1%nat 1%nat * A 2%nat 2%nat
      + A 0%nat 1%nat * A 1%nat 2%nat * A 2%nat 0%nat
      + A 0%nat 2%nat * A 1%nat 0%nat * A 2%nat 1%nat
      - A 0%nat 0%nat * A 1%nat 2%nat * A 2%nat 1%nat
      - A 0%nat 1%nat * A 1%nat 0%nat * A 2%nat 2%nat
      - A 0%nat 2%nat * A 1%nat 1%nat * A 2%nat 0%nat
  | _ => 0
  end.

Definition sym (A : tensor) : tensor := fun i j => 0.5 * (A i j + A j i).

Definition dev (dim : nat) (A : tensor) : tensor :=
  fun i j => if Nat.eqb i j then A i j - tr dim A / of_uint63 (Uint63.of_nat dim) else A i j.

(** One accumulator over all the entries, row by row. *)
Fixpoint squared_norm_rows (rows dim : nat) (A : tensor) (total : float) : float :=
  match rows with
  | O => total
  | S i => accumulate dim (fun j => A i j * A i j) (squared_norm_rows i dim A total)
  end.

Definition squared_norm (dim : nat) (A : tensor) : float := squared_norm_rows dim dim A 0.

Definition norm (dim : nat) (A : tensor) : float := sqrt (squared_norm dim A).

Definition normalize (dim : nat) (A : tensor) : tensor := tensor_div A (norm dim A).

(** [std::log]: the C library's logarithm is not required to round
    correctly, so its value is known where the C standard fixes it (Annex
    F: [log(1)] is [+0], [log(+-0)] is minus infinity, [log] of a negative
    number or of NaN is NaN, [log] of plus infinity is plus infinity) and
    nowhere else. *)
Definition log (x : float) : option float :=
  if x =? 1 then Some 0
  else if x =? 0 then Some neg_infinity
  else if x <? 0 then Some nan
  else if x =? infinity then Some infinity
  else if is_nan x then Some nan
  else None.

Module LinearIsotropic.

Record material : Type := {
  density : float;
  K : float;
  G : float
}.

Definition stress (dim : nat) (m : material) (du_dX : tensor) : tensor :=
  let I := Identity in
  let lambda := K m - (2 / 3) * G m in
  let epsilon := tensor_scale 0.5 (tensor_add (transpose du_dX) du_dX) in
  tensor_add (tensor_scale (lambda * tr dim epsilon) I) (tensor_scale (2 * G m) epsilon).

End LinearIsotropic.

Module NeoHookean.

Record material : Type := {
  density : float;
  K : float;
  G : float
}.

(** [None] where the value of [log(det(I + du_dX))] is not known. *)
Definition stress (dim : nat) (m : material) (du_dX : tensor) : option tensor :=
  let I := Identity in
  let lambda := K m - (2 / 3) * G m in
  let B_minus_I :=
    tensor_add (tensor_add (dot dim du_dX (transpose du_dX)) (transpose du_dX)) du_dX in
  match log (det dim (tensor_add I du_dX)) with
  | Some log_det =>
      Some (tensor_add (tensor_scale (lambda * log_det) I) (tensor_scale (G m) B_minus_I))
  | None => None
  end.

End NeoHookean.

Module J2.

Definition dim : nat := 3.

Record material : Type := {
  E : float;
  nu : float;
  Hi : float;
  Hk : float;
  sigma_y : float;
  density : float
}.

Record State : Type := {
  beta : tensor;
  plastic_strain : tensor;
  accumulated_plastic_strain : float
}.

(** The yield function of the elastic predictor (i). *)
Definition phi (m : material) (state : State) (du_dX : tensor) : float :=
  let G := 0.5 * E m / (1 + nu m) in
  let el_strain := tensor_sub (sym du_dX) (plastic_strain state) in
  let s := tensor_scale (2 * G) (dev dim el_strain) in
  let eta := tensor_sub s (beta state) in
  let q := sqrt (3 / 2) * norm dim eta in
  q - (sigma_y m + Hi m * accumulated_plastic_strain state).

Definition stress (m : material) (state : State) (du_dX : tensor) : tensor * State :=
  let I := Identity in
  let K := E m / (3 * (1 - 2 * nu m)) in
  let G := 0.5 * E m / (1 + nu m) in
  (* (i) elastic predictor *)
  let el_strain := tensor_sub (sym du_dX) (plastic_strain state) in
  let p := K * tr dim el_strain in
  let s := tensor_scale (2 * G) (dev dim el_strain) in
  let eta := tensor_sub s (beta state) in
  let q := sqrt (3 / 2) * norm dim eta in
  let phi := q - (sigma_y m + Hi m * accumulated_plastic_strain state) in
  (* (ii) admissibility *)
  if 0 <? phi then
    let plastic_strain_inc := phi / (3 * G + Hk m + Hi m) in
    let eta := normalize dim eta in
    (* (iii) return mapping *)
    let s := tensor_sub s (tensor_scale (sqrt 6 * G * plastic_strain_inc) eta) in
    let state :=
      {| accumulated_plastic_strain := accumulated_plastic_strain state + plastic_strain_inc;
         plastic_strain :=
           tensor_add (plastic_strain state)
                      (tensor_scale (sqrt (3 / 2) * plastic_strain_inc) eta);
         beta :=
           tensor_add (beta state)
                      (tensor_scale (sqrt (2 / 3) * Hk m * plastic_strain_inc) eta) |} in
    (tensor_add s (tensor_scale p I), state)
  else
    (tensor_add s (tensor_scale p I), state).

Definition zero_state : State :=
  {| beta := zero_tensor; plastic_strain := zero_tensor; accumulated_plastic_strain := 0 |}.

End J2.

(** A tensor that equals its own transpose, entry by entry and bit for
    bit. *)
Definition symmetric (A : tensor) : Prop := forall i j, A i j = A j i.

(** Concrete inputs. *)
Definition diag (a b c : float) : tensor :=
  fun i j =>
    match i, j with
    | 0%nat, 0%nat => a
    | 1%nat, 1%nat => b
    | 2%nat, 2%nat => c
    | _, _ => 0
    end.

(** Shear modulus 1, yield stress 3, no hardening: [Examples.steel]. *)
Definition steel : J2.material :=
  {| J2.E := 2; J2.nu := 0; J2.Hi := 0; J2.Hk := 0; J2.sigma_y := 3; J2.density := 1 |}.

(** The same with the yield stress -3. *)
Definition yielding_at_rest : J2.material :=
  {| J2.E := 2; J2.nu := 0; J2.Hi := 0; J2.Hk := 0; J2.sigma_y := -3; J2.density := 1 |}.

(** A shear in the plane with [det(I + du_dX) = 1] in binary64. *)
#[warnings="-inexact-float"]
Definition shear_in_plane : tensor :=
  fun i j =>
    match i, j with
    | 0%nat, 0%nat => 0.03
    | 0%nat, 1%nat => 0.1
    | 1%nat, 0%nat => 0.3
    | _, _ => 0
    end.

End Binary64.

(* ================================================================== *)
(** ** Logging ([SLIC_WARNING_IF], [SLIC_ERROR_IF]) *)

Module Slic.

Inductive Message : Type :=
| Warning (text : string)
| Error (text : string).

(** A computation that logs: it is given the messages logged so far and
    returns its value with the messages logged by the end.  An error message
    ends the run (the logger aborts on errors), so no value comes back. *)
Definition Slic (A : Type) : Type := list Message -> option A * list Message.

Definition ret {A : Type} (a : A) : Slic A := fun log => (Some a, log).

Definition bind {A B : Type} (c : Slic A) (k : A -> Slic B) : Slic B :=
  fun log =>
    match c log with
    | (Some a, log') => k a log'
    | (None, log') => (None, log')
    end.

Definition SLIC_WARNING_IF (condition : bool) (text : string) : Slic unit :=
  fun log => (Some tt, if condition then log ++ [Warning text] else log).

Definition SLIC_ERROR_IF (condition : bool) (text : string) : Slic unit :=
  fun log => if condition then (None, log ++ [Error text]) else (Some tt, log).

(** [std::transform] with a callback that logs: the elements are visited
    from first to last. *)
Fixpoint transform {A B : Type} (f : A -> Slic B) (l : list A) : Slic (list B) :=
  match l with
  | [] => ret []
  | a :: l' =>
      bind (f a) (fun b => bind (transform f l') (fun bs => ret (b :: bs)))
  end.

(** A range-based [for] whose body logs and updates an accumulator. *)
Fixpoint for_each {A S : Type} (body : S -> A -> Slic S) (l : list A) (acc : S) : Slic S :=
  match l with
  | [] => ret acc
  | a :: l' => bind (body acc a) (fun acc' => for_each body l' acc')
  end.

Definition is_error (m : Message) : bool :=
  match m with
  | Error _ => true
  | Warning _ => false
  end.

End Slic.

Import Slic.

Notation "x <- c ;; k" := (bind c (fun x => k))
  (at level 61, c at next level, right associativity).
Notation "c ;;; k" := (bind c (fun _ => k))
  (at level 61, right associativity).

(* ================================================================== *)
(** ** [NonlinearSolidSolver] *)

Module Solver.

(** [mfem::Vector], [mfem::ParGridFunction], [mfem::HypreParVector]: the
    entry [v[i]] is [v i].  Every vector of the solver lives on the one
    displacement space, so the sizes agree and are left out. *)
Definition Vector : Type := nat -> double.

(** [Vector::Set(a, x)]: [this = a * x]. *)
Definition Vector_Set (a : double) (x : Vector) : Vector := fun i => a * x i.

(** [Vector::Add(a, x)]: [this += a * x]. *)
Definition Vector_Add (this : Vector) (a : double) (x : Vector) : Vector :=
  fun i => this i + a * x i.

(** [mfem::Array<int>]. *)
Abbreviation Array_int := (list Z) (only parsing).

(** [Array<int>::Sort]: ascending order. *)
Fixpoint insert_sorted (x : Z) (l : Array_int) : Array_int :=
  match l with
  | [] => [x]
  | y :: l' => if (x <=? y)%Z then x :: y :: l' else y :: insert_sorted x l'
  end.

Fixpoint Sort (l : Array_int) : Array_int :=
  match l with
  | [] => []
  | x :: l' => insert_sorted x (Sort l')
  end.

(** [Array<int>::Unique]: of every run of equal neighbours one is kept. *)
Fixpoint Unique (l : Array_int) : Array_int :=
  match l with
  | [] => []
  | x :: l' =>
      match l' with
      | [] => [x]
      | y :: _ => if (x =? y)%Z then Unique l' else x :: Unique l'
      end
  end.

(** [mfem::Coefficient] and [mfem::VectorCoefficient]: a scalar or a
    vector that depends on the position and on the time. *)
Definition Coefficient : Type := Vector -> double -> double.
Definition VectorCoefficient : Type := Vector -> double -> Vector.

(** The services of mfem that the solver calls and that are no part of
    the sources: the dof maps of the finite element space, projection onto
    a grid function, the transfer between grid functions and true-dof
    vectors, the Newton solver and the ODE solver. *)
Record Mfem : Type := {
  (* ParFiniteElementSpace::VDofToDof and DofToVDof *)
  VDofToDof : Z -> Z;
  DofToVDof : Z -> Z -> Z;
  (* ParGridFunction::ProjectCoefficient(VectorCoefficient&, Array<int>&) *)
  ProjectVectorCoefficient : VectorCoefficient -> Array_int -> Vector -> Vector;
  (* ParGridFunction::ProjectCoefficient(Coefficient&, Array<int>&, int) *)
  ProjectCoefficient : Coefficient -> Array_int -> Z -> Vector -> Vector;
  (* ParGridFunction::GetTrueDofs and SetFromTrueDofs *)
  GetTrueDofs : Vector -> Vector;
  SetFromTrueDofs : Vector -> Vector;
  (* NewtonSolver::Mult(b, x) on a mesh with the given nodes, started from
     [x] (iterative mode): the last iterate, and whether the residual norm
     went below the tolerance within the maximum number of iterations
     (what NewtonSolver::GetConverged would say) *)
  Newton_Mult : Vector -> Vector -> Vector -> Vector * bool;
  (* ODESolver::Step(x, t, dt) on a mesh with the given nodes; the block
     vector x is the pair (velocity, displacement), and t and dt are passed
     by reference *)
  ODE_Step : Vector -> Vector * Vector -> double -> double ->
             (Vector * Vector) * double * double
}.

(** The same services with another answer of the Newton solver to the
    question whether it converged; the iterate it returns is the same. *)
Definition with_convergence (M : Mfem) (converged : Vector -> Vector -> Vector -> bool)
  : Mfem :=
  {| VDofToDof := VDofToDof M;
     DofToVDof := DofToVDof M;
     ProjectVectorCoefficient := ProjectVectorCoefficient M;
     ProjectCoefficient := ProjectCoefficient M;
     GetTrueDofs := GetTrueDofs M;
     SetFromTrueDofs := SetFromTrueDofs M;
     Newton_Mult := fun nodes b x => (fst (Newton_Mult M nodes b x), converged nodes b x);
     ODE_Step := ODE_Step M |}.

(** Modelled from the spec: [serac::TimestepMethod], which is declared
    outside the sources; the solver tells [QuasiStatic] from the rest, the
    schemes of the dynamic regime. *)
Inductive TimestepMethod : Type :=
| QuasiStatic
| BackwardEuler
| SDIRK33
| ForwardEuler
| RK4
| GeneralizedAlpha
| ImplicitMidpoint.

Definition is_QuasiStatic (t : TimestepMethod) : bool :=
  match t with
  | QuasiStatic => true
  | _ => false
  end.

(** The coefficient of a boundary condition,
    [std::variant<std::shared_ptr<mfem::Coefficient>,
                  std::shared_ptr<mfem::VectorCoefficient>>]. *)
Inductive GeneralCoefficient : Type :=
| scalar_coef (c : Coefficient)
| vector_coef (c : VectorCoefficient).

(** [serac::BoundaryCondition], with the members that [CompleteSetup]
    reads. *)
Record BoundaryCondition : Type := {
  markers : Array_int;
  true_dofs : Array_int;
  component : Z;
  coef : GeneralCoefficient
}.

(** Which grid function the mesh uses as its nodes: [ParMesh::NewNodes]
    stores a pointer to the grid function it is given, so the mesh sees
    every later change of that grid function. *)
Inductive NodeSet : Type :=
| reference_nodes
| deformed_nodes.

(** The members of [NonlinearSolidSolver] that set-up and time stepping
    read or write.  [m_block] is the pair of the two true-dof vectors, which
    are views into it.  [m_cycle] is an [int] that no run brings near its
    bound. *)
Record NonlinearSolidSolver : Type := {
  m_timestepper : TimestepMethod;
  m_velocity_gf : Vector;
  m_velocity_true_vec : Vector;
  m_displacement_gf : Vector;
  m_displacement_true_vec : Vector;
  m_reference_nodes : Vector;
  m_deformed_nodes : Vector;
  mesh_nodes : NodeSet;
  m_nat_bdr : list BoundaryCondition;
  m_ess_bdr : list BoundaryCondition;
  m_time : double;
  m_cycle : Z
}.


(** The nodes the mesh currently has. *)
Definition Nodes (solver : NonlinearSolidSolver) : Vector :=
  match mesh_nodes solver with
  | reference_nodes => m_reference_nodes solver
  | deformed_nodes => m_deformed_nodes solver
  end.

(** Assignments to single members. *)
Definition set_velocity_gf (n : NonlinearSolidSolver) (v : Vector) :=
  {| m_timestepper := m_timestepper n; m_velocity_gf := v;
     m_velocity_true_vec := m_velocity_true_vec n;
     m_displacement_gf := m_displacement_gf n;
     m_displacement_true_vec := m_displacement_true_vec n;
     m_reference_nodes := m_reference_nodes n; m_deformed_nodes := m_deformed_nodes n;
     mesh_nodes := mesh_nodes n; m_nat_bdr := m_nat_bdr n; m_ess_bdr := m_ess_bdr n;
     m_time := m_time n; m_cycle := m_cycle n |}.

Definition set_velocity_true_vec (n : NonlinearSolidSolver) (v : Vector) :=
  {| m_timestepper := m_timestepper n; m_velocity_gf := m_velocity_gf n;
     m_velocity_true_vec := v;
     m_displacement_gf := m_displacement_gf n;
     m_displacement_true_vec := m_displacement_true_vec n;
     m_reference_nodes := m_reference_nodes n; m_deformed_nodes := m_deformed_nodes n;
     mesh_nodes := mesh_nodes n; m_nat_bdr := m_nat_bdr n; m_ess_bdr := m_ess_bdr n;
     m_time := m_time n; m_cycle := m_cycle n |}.

Definition set_displacement_gf (n : NonlinearSolidSolver) (v : Vector) :=
  {| m_timestepper := m_timestepper n; m_velocity_gf := m_velocity_gf n;
     m_velocity_true_vec := m_velocity_true_vec n;
     m_displacement_gf := v;
     m_displacement_true_vec := m_displacement_true_vec n;
     m_reference_nodes := m_reference_nodes n; m_deformed_nodes := m_deformed_nodes n;
     mesh_nodes := mesh_nodes n; m_nat_bdr := m_nat_bdr n; m_ess_bdr := m_ess_bdr n;
     m_time := m_time n; m_cycle := m_cycle n |}.

Definition set_displacement_true_vec (n : NonlinearSolidSolver) (v : Vector) :=
  {| m_timestepper := m_timestepper n; m_velocity_gf := m_velocity_gf n;
     m_velocity_true_vec := m_velocity_true_vec n;
     m_displacement_gf := m_displacement_gf n;
     m_displacement_true_vec := v;
     m_reference_nodes := m_reference_nodes n; m_deformed_nodes := m_deformed_nodes n;
     mesh_nodes := mesh_nodes n; m_nat_bdr := m_nat_bdr n; m_ess_bdr := m_ess_bdr n;
     m_time := m_time n; m_cycle := m_cycle n |}.

Definition set_deformed_nodes (n : NonlinearSolidSolver) (v : Vector) :=
  {| m_timestepper := m_timestepper n; m_velocity_gf := m_velocity_gf n;
     m_velocity_true_vec := m_velocity_true_vec n;
     m_displacement_gf := m_displacement_gf n;
     m_displacement_true_vec := m_displacement_true_vec n;
     m_reference_nodes := m_reference_nodes n; m_deformed_nodes := v;
     mesh_nodes := mesh_nodes n; m_nat_bdr := m_nat_bdr n; m_ess_bdr := m_ess_bdr n;
     m_time := m_time n; m_cycle := m_cycle n |}.

Definition set_mesh_nodes (n : NonlinearSolidSolver) (which : NodeSet) :=
  {| m_timestepper := m_timestepper n; m_velocity_gf := m_velocity_gf n;
     m_velocity_true_vec := m_velocity_true_vec n;
     m_displacement_gf := m_displacement_gf n;
     m_displacement_true_vec := m_displacement_true_vec n;
     m_reference_nodes := m_reference_nodes n; m_deformed_nodes := m_deformed_nodes n;
     mesh_nodes := which; m_nat_bdr := m_nat_bdr n; m_ess_bdr := m_ess_bdr n;
     m_time := m_time n; m_cycle := m_cycle n |}.

Definition set_time (n : NonlinearSolidSolver) (t : double) :=
  {| m_timestepper := m_timestepper n; m_velocity_gf := m_velocity_gf n;
     m_velocity_true_vec := m_velocity_true_vec n;
     m_displacement_gf := m_displacement_gf n;
     m_displacement_true_vec := m_displacement_true_vec n;
     m_reference_nodes := m_reference_nodes n; m_deformed_nodes := m_deformed_nodes n;
     mesh_nodes := mesh_nodes n; m_nat_bdr := m_nat_bdr n; m_ess_bdr := m_ess_bdr n;
     m_time := t; m_cycle := m_cycle n |}.

Definition set_cycle (n : NonlinearSolidSolver) (c : Z) :=
  {| m_timestepper := m_timestepper n; m_velocity_gf := m_velocity_gf n;
     m_velocity_true_vec := m_velocity_true_vec n;
     m_displacement_gf := m_displacement_gf n;
     m_displacement_true_vec := m_displacement_true_vec n;
     m_reference_nodes := m_reference_nodes n; m_deformed_nodes := m_deformed_nodes n;
     mesh_nodes := mesh_nodes n; m_nat_bdr := m_nat_bdr n; m_ess_bdr := m_ess_bdr n;
     m_time := m_time n; m_cycle := c |}.

(** *** [CompleteSetup]: the boundary conditions *)

Definition traction_not_vector : string :=
  "Traction boundary condition had a non-vector coefficient.".
Definition tdofs_do_not_match : string :=
  "Single-component boundary condition tdofs do not match provided component.".
Definition all_components_not_vector : string :=
  "Displacement boundary condition contained all components but had a non-vector coefficient.".
Definition single_component_not_scalar : string :=
  "Displacement boundary condition contained a single component but had a non-scalar coefficient.".

(** [std::holds_alternative] and [std::get] on the coefficient; [std::get]
    throws on the other alternative, which ends the run as well. *)
Definition holds_vector (c : GeneralCoefficient) : bool :=
  match c with
  | vector_coef _ => true
  | scalar_coef _ => false
  end.

Definition holds_scalar (c : GeneralCoefficient) : bool :=
  match c with
  | scalar_coef _ => true
  | vector_coef _ => false
  end.

Definition get_vector (c : GeneralCoefficient) : Slic VectorCoefficient :=
  match c with
  | vector_coef v => ret v
  | scalar_coef _ => fun log => (None, log)
  end.

Definition get_scalar (c : GeneralCoefficient) : Slic Coefficient :=
  match c with
  | scalar_coef v => ret v
  | vector_coef _ => fun log => (None, log)
  end.

(** The part of the nonlinear form [m_H_form] that the boundary conditions
    decide: the traction integrators added to it, each with its markers, and
    the list given to [SetEssentialTrueDofs]. *)
Record ParNonlinearForm : Type := {
  bdr_face_integrators : list (VectorCoefficient * Array_int);
  ess_tdof_list : Array_int
}.

(** The loop "Add the traction integrator". *)
Definition add_traction (integrators : list (VectorCoefficient * Array_int))
  (nat_bc_data : BoundaryCondition) : Slic (list (VectorCoefficient * Array_int)) :=
  SLIC_ERROR_IF (negb (holds_vector (coef nat_bc_data))) traction_not_vector ;;;
  c <- get_vector (coef nat_bc_data) ;;
  ret (integrators ++ [(c, markers nat_bc_data)]).

(** The callback given to [std::transform]: the scalar dof of a true dof,
    with the warning on a component that does not match. *)
Definition scalar_dof (M : Mfem) (bc : BoundaryCondition) (tdof : Z) : Slic Z :=
  let dof := VDofToDof M tdof in
  SLIC_WARNING_IF (negb (component bc =? -1)%Z
                   && negb (tdof =? DofToVDof M dof (component bc))%Z)
                  tdofs_do_not_match ;;;
  ret dof.

(** Does the true dof miss the component asked for?  The condition of the
    warning. *)
Definition mismatch (M : Mfem) (bc : BoundaryCondition) (tdof : Z) : bool :=
  negb (component bc =? -1)%Z
  && negb (tdof =? DofToVDof M (VDofToDof M tdof) (component bc))%Z.

(** The warnings that the true dofs of one condition produce, in order. *)
Definition warnings (M : Mfem) (bc : BoundaryCondition) (tdofs : Array_int)
  : list Message :=
  flat_map (fun tdof => if mismatch M bc tdof then [Warning tdofs_do_not_match] else [])
           tdofs.

(** Has the condition the kind of coefficient that its component asks
    for: a vector for all components, a scalar for a single one? *)
Definition coefficient_fits (bc : BoundaryCondition) : bool :=
  if (component bc =? -1)%Z then holds_vector (coef bc) else holds_scalar (coef bc).

(** The body of the loop "Project the essential boundary coefficients",
    on the displacement grid function and the list [essential_dofs]. *)
Definition project_essential (M : Mfem) (acc : Vector * Array_int)
  (bc : BoundaryCondition) : Slic (Vector * Array_int) :=
  let '(gf, essential_dofs) := acc in
  (* Generate the scalar dof list from the vector dof list *)
  dof_list <- transform (scalar_dof M bc) (true_dofs bc) ;;
  (* Project the coefficient *)
  gf' <- (if (component bc =? -1)%Z then
            SLIC_ERROR_IF (negb (holds_vector (coef bc))) all_components_not_vector ;;;
            c <- get_vector (coef bc) ;;
            ret (ProjectVectorCoefficient M c dof_list gf)
          else
            SLIC_ERROR_IF (negb (holds_scalar (coef bc))) single_component_not_scalar ;;;
            c <- get_scalar (coef bc) ;;
            ret (ProjectCoefficient M c dof_list (component bc) gf)) ;;
  (* Add the vector dofs to the total essential BC dof list *)
  ret (gf', essential_dofs ++ true_dofs bc).

(** [CompleteSetup], up to [m_H_form->SetEssentialTrueDofs(essential_dofs)];
    what follows builds the mass and viscosity forms and configures the
    linear and the Newton solver, and touches neither the boundary
    conditions nor the fields. *)
Definition CompleteSetup (M : Mfem) (solver : NonlinearSolidSolver)
  : Slic (NonlinearSolidSolver * ParNonlinearForm) :=
  (* Add the traction integrator *)
  integrators <- for_each add_traction (m_nat_bdr solver) [] ;;
  (* Add the essential boundary; project the essential boundary coefficients *)
  projected <- for_each (project_essential M) (m_ess_bdr solver)
                        (m_displacement_gf solver, []) ;;
  let '(gf, essential_dofs) := projected in
  (* Remove any duplicates from the essential BC list *)
  let essential_dofs := Unique (Sort essential_dofs) in
  ret (set_displacement_gf solver gf,
       {| bdr_face_integrators := integrators; ess_tdof_list := essential_dofs |}).

(** *** Time stepping *)

(** [QuasiStaticSolve]: [m_newton_solver.Mult(zero, *m_displacement->true_vec)];
    nothing reads what the Newton solver says about convergence. *)
Definition QuasiStaticSolve (M : Mfem) (solver : NonlinearSolidSolver)
  : NonlinearSolidSolver :=
  let zero : Vector := fun _ => 0 in
  let '(x, _) := Newton_Mult M (Nodes solver) zero (m_displacement_true_vec solver) in
  set_displacement_true_vec solver x.

(** [AdvanceTimestep(double &dt)]: the solver after the call, and [dt]
    after the call. *)
Definition AdvanceTimestep (M : Mfem) (solver : NonlinearSolidSolver) (dt : double)
  : NonlinearSolidSolver * double :=
  (* Initialize the true vector *)
  let solver := set_velocity_true_vec solver (GetTrueDofs M (m_velocity_gf solver)) in
  let solver := set_displacement_true_vec solver (GetTrueDofs M (m_displacement_gf solver)) in
  (* Set the mesh nodes to the reference configuration *)
  let solver := set_mesh_nodes solver reference_nodes in
  let '(solver, dt) :=
    if is_QuasiStatic (m_timestepper solver) then
      (QuasiStaticSolve M solver, dt)
    else
      let '(block, time, dt) :=
        ODE_Step M (Nodes solver)
                 (m_velocity_true_vec solver, m_displacement_true_vec solver)
                 (m_time solver) dt in
      (set_time
         (set_displacement_true_vec (set_velocity_true_vec solver (fst block)) (snd block))
         time,
       dt) in
  (* Distribute the shared DOFs *)
  let solver := set_velocity_gf solver (SetFromTrueDofs M (m_velocity_true_vec solver)) in
  let solver := set_displacement_gf solver (SetFromTrueDofs M (m_displacement_true_vec solver)) in
  (* Update the mesh with the new deformed nodes *)
  let solver := set_deformed_nodes solver (Vector_Set 1 (m_displacement_gf solver)) in
  let solver :=
    if is_QuasiStatic (m_timestepper solver) then
      set_deformed_nodes solver (Vector_Add (m_deformed_nodes solver) 1 (m_reference_nodes solver))
    else solver in
  let solver := set_mesh_nodes solver deformed_nodes in
  (set_cycle solver (m_cycle solver + 1)%Z, dt).

End Solver.

(* ================================================================== *)
(** ** [ThermalConductionFunctional]: time stepping and the Jacobian of the
    dynamic residual *)

Module ThermalConduction.

Import Solver.

(** [mfem::HypreParMatrix]: the entry in row [i] and column [j]. *)
Definition HypreParMatrix : Type := nat -> nat -> double.

(** [mfem::Add(a, A, b, B)]: the new matrix [a * A + b * B]. *)
Definition Add (a : double) (A : HypreParMatrix) (b : double) (B : HypreParMatrix)
  : HypreParMatrix :=
  fun i j => a * A i j + b * B i j.

(** The members that time stepping and the Jacobian callback read or
    write; [temperature_] is its grid function and its true-dof vector.
    [dt_], [u_] and [previous_dt_] are handed by reference to the ODE
    wrapper [ode_], which writes them; the callback only reads them.  The
    two counters are no members: they count the calls of [assemble] on the
    mass and on the stiffness form, as a test would.  [cycle_] is an [int]
    that no run brings near its bound. *)
Record ThermalConductionFunctional : Type := {
  temperature_gf : Vector;
  temperature_true_vec : Vector;
  is_quasistatic_ : bool;
  gf_initialized_ : bool;
  time_ : double;
  cycle_ : Z;
  u_ : Vector;
  dt_ : double;
  previous_dt_ : double;
  J_ : option HypreParMatrix;
  mass_assemblies : nat;
  stiffness_assemblies : nat
}.

(** What [FirstOrderODE::Step(x, t, dt)] leaves: the vector, the time and
    the step size it was given by reference, and the members it reaches
    through the references and the callbacks it holds. *)
Record StepResult : Type := {
  step_x : Vector;
  step_t : double;
  step_dt : double;
  step_u_ : Vector;
  step_dt_ : double;
  step_previous_dt_ : double;
  step_J_ : option HypreParMatrix;
  step_mass_assemblies : nat;
  step_stiffness_assemblies : nat
}.

(** The services that are no part of the sources: assembly of the
    gradients of [M_functional_] and [K_functional_] at a vector, the
    transfer between the grid function and the true-dof vector of a
    [FiniteElementState], the nonlinear solver on the quasi-static
    [residual_] (its last iterate, whether it converged, and the [J_] its
    callbacks leave), the ODE wrapper, and whether [SLIC_ASSERT_MSG] is
    compiled in ([AXOM_DEBUG]). *)
Record Services : Type := {
  assemble_M : Vector -> HypreParMatrix;
  assemble_K : Vector -> HypreParMatrix;
  initializeTrueVec : Vector -> Vector;
  distributeSharedDofs : Vector -> Vector;
  nonlin_solver_Mult : ThermalConductionFunctional -> Vector -> Vector ->
                       Vector * bool * option HypreParMatrix;
  ode_Step : ThermalConductionFunctional -> Vector -> double -> double -> StepResult;
  AXOM_DEBUG : bool
}.

(** The same services with another answer of the nonlinear solver to the
    question whether it converged. *)
Definition with_convergence (srv : Services)
  (converged : ThermalConductionFunctional -> Vector -> Vector -> bool) : Services :=
  {| assemble_M := assemble_M srv;
     assemble_K := assemble_K srv;
     initializeTrueVec := initializeTrueVec srv;
     distributeSharedDofs := distributeSharedDofs srv;
     nonlin_solver_Mult := fun this b x =>
       (fst (fst (nonlin_solver_Mult srv this b x)), converged this b x,
        snd (nonlin_solver_Mult srv this b x));
     ode_Step := ode_Step srv;
     AXOM_DEBUG := AXOM_DEBUG srv |}.

(** What the constructor leaves: [dt_ = 0.0], [previous_dt_ = -1.0], no
    Jacobian yet, [previous_ = 0.0]; the regime comes from the options. *)
Definition constructed (quasistatic : bool) (temperature u : Vector)
  : ThermalConductionFunctional :=
  {| temperature_gf := temperature; temperature_true_vec := temperature;
     is_quasistatic_ := quasistatic; gf_initialized_ := false;
     time_ := 0; cycle_ := 0;
     u_ := u; dt_ := 0; previous_dt_ := -1; J_ := None;
     mass_assemblies := 0; stiffness_assemblies := 0 |}.

(** Assignments to members. *)
Definition set_temperature (this : ThermalConductionFunctional) (gf true_vec : Vector) :=
  {| temperature_gf := gf; temperature_true_vec := true_vec;
     is_quasistatic_ := is_quasistatic_ this; gf_initialized_ := gf_initialized_ this;
     time_ := time_ this; cycle_ := cycle_ this;
     u_ := u_ this; dt_ := dt_ this; previous_dt_ := previous_dt_ this; J_ := J_ this;
     mass_assemblies := mass_assemblies this;
     stiffness_assemblies := stiffness_assemblies this |}.

Definition set_cycle (this : ThermalConductionFunctional) (cycle : Z) :=
  {| temperature_gf := temperature_gf this;
     temperature_true_vec := temperature_true_vec this;
     is_quasistatic_ := is_quasistatic_ this; gf_initialized_ := gf_initialized_ this;
     time_ := time_ this; cycle_ := cycle;
     u_ := u_ this; dt_ := dt_ this; previous_dt_ := previous_dt_ this; J_ := J_ this;
     mass_assemblies := mass_assemblies this;
     stiffness_assemblies := stiffness_assemblies this |}.

Definition set_J (this : ThermalConductionFunctional) (J : option HypreParMatrix)
  (mass stiffness : nat) :=
  {| temperature_gf := temperature_gf this;
     temperature_true_vec := temperature_true_vec this;
     is_quasistatic_ := is_quasistatic_ this; gf_initialized_ := gf_initialized_ this;
     time_ := time_ this; cycle_ := cycle_ this;
     u_ := u_ this; dt_ := dt_ this; previous_dt_ := previous_dt_ this; J_ := J;
     mass_assemblies := mass; stiffness_assemblies := stiffness |}.

(** The members after [ode_.Step]. *)
Definition after_step (this : ThermalConductionFunctional) (r : StepResult) :=
  {| temperature_gf := temperature_gf this;
     temperature_true_vec := step_x r;
     is_quasistatic_ := is_quasistatic_ this; gf_initialized_ := gf_initialized_ this;
     time_ := step_t r; cycle_ := cycle_ this;
     u_ := step_u_ r; dt_ := step_dt_ r; previous_dt_ := step_previous_dt_ r;
     J_ := step_J_ r;
     mass_assemblies := step_mass_assemblies r;
     stiffness_assemblies := step_stiffness_assemblies r |}.

Definition thermal_state_not_initialized : string := "Thermal state not initialized!".

(** [advanceTimestep(double& dt)]: the object after the call, and [dt]
    after the call.  Nothing reads what the nonlinear solver says about
    convergence. *)
Definition advanceTimestep (srv : Services) (this : ThermalConductionFunctional)
  (dt : double) : Slic (ThermalConductionFunctional * double) :=
  (* temperature_.initializeTrueVec() *)
  let this :=
    set_temperature this (temperature_gf this)
                    (initializeTrueVec srv (temperature_gf this)) in
  stepped <-
    (if is_quasistatic_ this then
       let zero_ : Vector := fun _ => 0 in
       let '(x, _, J) := nonlin_solver_Mult srv this zero_ (temperature_true_vec this) in
       ret (set_temperature
              (set_J this J (mass_assemblies this) (stiffness_assemblies this))
              (temperature_gf this) x,
            dt)
     else
       SLIC_ERROR_IF (AXOM_DEBUG srv && negb (gf_initialized_ this))
                     thermal_state_not_initialized ;;;
       (* Step the time integrator *)
       let r := ode_Step srv this (temperature_true_vec this) (time_ this) dt in
       ret (after_step this r, step_dt r)) ;;
  let '(this, dt) := stepped in
  (* temperature_.distributeSharedDofs() *)
  let this :=
    set_temperature this (distributeSharedDofs srv (temperature_true_vec this))
                    (temperature_true_vec this) in
  ret (set_cycle this (cycle_ this + 1)%Z, dt).

(** [add(1.0, u_, dt_, du_dt, K_arg)]. *)
Definition add (a : double) (x : Vector) (b : double) (y : Vector) : Vector :=
  fun i => a * x i + b * y i.

(** The second callback of the dynamic [residual_] in [completeSetup],
    [(const mfem::Vector& du_dt) -> mfem::Operator&]: the object after the
    call and the operator returned, [*J_]. *)
Definition GetGradient (srv : Services) (this : ThermalConductionFunctional)
  (du_dt : Vector) : ThermalConductionFunctional * option HypreParMatrix :=
  (* Only reassemble the stiffness if it is a new timestep *)
  if Req_dec_T (dt_ this) (previous_dt_ this) then
    (this, J_ this)
  else
    let K_arg := add 1 (u_ this) (dt_ this) du_dt in
    let m_mat := assemble_M srv (u_ this) in
    let k_mat := assemble_K srv K_arg in
    let J := Add 1 m_mat (dt_ this) k_mat in
    (set_J this (Some J) (S (mass_assemblies this)) (S (stiffness_assemblies this)),
     Some J).

(** The Jacobian requests of successive Newton iterations, one per trial
    vector, with nothing else writing the object in between. *)
Fixpoint GetGradients (srv : Services) (this : ThermalConductionFunctional)
  (trials : list Vector) : ThermalConductionFunctional :=
  match trials with
  | [] => this
  | du_dt :: rest => GetGradients srv (fst (GetGradient srv this du_dt)) rest
  end.

End ThermalConduction.

(* ================================================================== *)
(** ** A small run: one partition, three components per node *)

Module Scenario.

Import Solver.

(** The dof maps of a space ordered [byVDIM] with three components. *)
Definition byVDIM_VDofToDof (vdof : Z) : Z := (vdof / 3)%Z.
Definition byVDIM_DofToVDof (dof vd : Z) : Z := (dof * 3 + vd)%Z.

(** On one partition every dof is a true dof.  The Newton solver here
    stops after one correction of every entry by one and answers
    [converged]; the ODE solver takes one explicit Euler step; projection
    leaves the grid function as it is. *)
Definition serial (converged : bool) : Mfem :=
  {| VDofToDof := byVDIM_VDofToDof;
     DofToVDof := byVDIM_DofToVDof;
     ProjectVectorCoefficient := fun _ _ gf => gf;
     ProjectCoefficient := fun _ _ _ gf => gf;
     GetTrueDofs := fun v => v;
     SetFromTrueDofs := fun v => v;
     Newton_Mult := fun _ _ x => (fun i => x i + 1, converged);
     ODE_Step := fun _ block t dt =>
                   ((fst block, fun i => snd block i + dt * fst block i), t + dt, dt) |}.

(** A displacement condition on the component 0 whose true dofs are 3
    (component 0 of node 1) and 4 (component 1 of node 1). *)
Definition fixed_x : BoundaryCondition :=
  {| markers := [1%Z]; true_dofs := [3%Z; 4%Z]; component := 0%Z;
     coef := scalar_coef (fun _ _ => 0) |}.

(** A solver before its first step: every node at 10, displacement 0,
    velocity 2; the deformed nodes are given. *)
Definition fresh (timestepper : TimestepMethod) (deformed : double)
  : NonlinearSolidSolver :=
  {| m_timestepper := timestepper;
     m_velocity_gf := fun _ => 2;
     m_velocity_true_vec := fun _ => 0;
     m_displacement_gf := fun _ => 0;
     m_displacement_true_vec := fun _ => 0;
     m_reference_nodes := fun _ => 10;
     m_deformed_nodes := fun _ => deformed;
     mesh_nodes := reference_nodes;
     m_nat_bdr := [];
     m_ess_bdr := [fixed_x];
     m_time := 0;
     m_cycle := 0 |}.

(** Thermal services on one partition: the matrix of a form at a vector
    has the first entry of the vector everywhere; the nonlinear solver
    stops after one correction of every entry by one and answers
    [converged]; the ODE wrapper takes one explicit Euler step with the
    rate 1 and records the step size. *)
Definition thermal (converged : bool) : ThermalConduction.Services :=
  {| ThermalConduction.assemble_M := fun u _ _ => u 0%nat;
     ThermalConduction.assemble_K := fun u _ _ => u 0%nat;
     ThermalConduction.initializeTrueVec := fun v => v;
     ThermalConduction.distributeSharedDofs := fun v => v;
     ThermalConduction.nonlin_solver_Mult :=
       fun this _ x => (fun i => x i + 1, converged, ThermalConduction.J_ this);
     ThermalConduction.ode_Step :=
       fun this x t dt =>
         {| ThermalConduction.step_x := fun i => x i + dt;
            ThermalConduction.step_t := t + dt;
            ThermalConduction.step_dt := dt;
            ThermalConduction.step_u_ := x;
            ThermalConduction.step_dt_ := dt;
            ThermalConduction.step_previous_dt_ := dt;
            ThermalConduction.step_J_ := ThermalConduction.J_ this;
            ThermalConduction.step_mass_assemblies :=
              ThermalConduction.mass_assemblies this;
            ThermalConduction.step_stiffness_assemblies :=
              ThermalConduction.stiffness_assemblies this |};
     ThermalConduction.AXOM_DEBUG := false |}.

(** A thermal solver in the middle of a dynamic run: a Jacobian is stored,
    and the mass and the stiffness matrix have been assembled three times
    each. *)
Definition stepping (dt previous_dt : double)
  : ThermalConduction.ThermalConductionFunctional :=
  {| ThermalConduction.temperature_gf := fun _ => 20;
     ThermalConduction.temperature_true_vec := fun _ => 20;
     ThermalConduction.is_quasistatic_ := false;
     ThermalConduction.gf_initialized_ := true;
     ThermalConduction.time_ := 1;
     ThermalConduction.cycle_ := 3;
     ThermalConduction.u_ := fun _ => 1;
     ThermalConduction.dt_ := dt;
     ThermalConduction.previous_dt_ := previous_dt;
     ThermalConduction.J_ := Some (fun _ _ => 7);
     ThermalConduction.mass_assemblies := 3;
     ThermalConduction.stiffness_assemblies := 3 |}.

End Scenario.

(* ================================================================== *)
(** ** Further inputs, runs of several steps, and the rest of the set-up *)

Module MoreExamples.

(** The displacement gradient of a quarter turn in the plane: [F - I] for
    [F = ((0, -1), (1, 0))]. *)
Definition quarter_turn : tensor :=
  fun i j =>
    match i, j with
    | 0%nat, 0%nat => -1
    | 0%nat, 1%nat => -1
    | 1%nat, 0%nat => 1
    | 1%nat, 1%nat => -1
    | _, _ => 0
    end.

(** The generator of the rotations in the plane, a skew-symmetric gradient. *)
Definition spin : tensor :=
  fun i j =>
    match i, j with
    | 0%nat, 1%nat => -1
    | 1%nat, 0%nat => 1
    | _, _ => 0
    end.

End MoreExamples.

Module SolverRun.

Import Solver.

(** The loop of a driver, [for (...) solver.AdvanceTimestep(dt);]: [dt]
    is one variable, handed to every call by reference. *)
Fixpoint AdvanceTimesteps (M : Mfem) (n : nat) (solver : NonlinearSolidSolver)
  (dt : double) : NonlinearSolidSolver * double :=
  match n with
  | O => (solver, dt)
  | S k =>
      let '(solver', dt') := AdvanceTimestep M solver dt in
      AdvanceTimesteps M k solver' dt'
  end.

(** The number of warnings that [CompleteSetup] owes to a list of essential
    conditions: the true dofs that miss their component, each counted as
    often as it is listed. *)
Definition mismatches (M : Mfem) (bcs : list BoundaryCondition) : nat :=
  list_sum (map (fun bc => List.length (filter (mismatch M bc) (true_dofs bc))) bcs).

(** The error message of an essential condition whose coefficient is not of
    the kind its component asks for. *)
Definition misfit_message (bc : BoundaryCondition) : string :=
  if (component bc =? -1)%Z then all_components_not_vector
  else single_component_not_scalar.

End SolverRun.

Module MoreScenario.

Import Solver.

(** A displacement condition on all components whose true dofs overlap
    with those of [Scenario.fixed_x] and are listed out of order. *)
Definition fixed_all : BoundaryCondition :=
  {| markers := [2%Z]; true_dofs := [4%Z; 0%Z; 3%Z]; component := (-1)%Z;
     coef := vector_coef (fun _ _ _ => 0) |}.

(** A traction on the boundary attribute 3. *)
Definition pulled : BoundaryCondition :=
  {| markers := [3%Z]; true_dofs := []; component := (-1)%Z;
     coef := vector_coef (fun _ _ _ => 1) |}.

(** The solver of [Scenario.fresh] with two displacement conditions and a
    traction. *)
Definition loaded (timestepper : TimestepMethod) : NonlinearSolidSolver :=
  {| m_timestepper := timestepper;
     m_velocity_gf := fun _ => 2;
     m_velocity_true_vec := fun _ => 0;
     m_displacement_gf := fun _ => 0;
     m_displacement_true_vec := fun _ => 0;
     m_reference_nodes := fun _ => 10;
     m_deformed_nodes := fun _ => 10;
     mesh_nodes := reference_nodes;
     m_nat_bdr := [pulled];
     m_ess_bdr := [Scenario.fixed_x; fixed_all];
     m_time := 0;
     m_cycle := 0 |}.

End MoreScenario.

Module SolverSetup.

Import Solver.

(** [mfem::Ordering::Type]. *)
Inductive Ordering : Type :=
| byNODES
| byVDIM.

(** The finite element space of the displacement as the constructor makes
    it: [ParFiniteElementSpace(pmesh, coll, pmesh->Dimension(),
    mfem::Ordering::byVDIM)] on an [H1_FECollection(order,
    pmesh->Dimension())]. *)
Record ParFiniteElementSpace : Type := {
  fec_order : Z;
  vdim : Z;
  GetOrdering : Ordering
}.

Definition displacement_space (order : Z) (Dimension : Z) : ParFiniteElementSpace :=
  {| fec_order := order; vdim := Dimension; GetOrdering := byVDIM |}.

(** Modelled from the spec: [serac::Preconditioner], which is declared
    outside the sources; [CompleteSetup] tells [BoomerAMG] from the rest. *)
Inductive Preconditioner : Type :=
| BoomerAMG
| Jacobi.

(** [serac::LinearSolverParameters] and [serac::NonlinearSolverParameters],
    with the members that [CompleteSetup] reads. *)
Record LinearSolverParameters : Type := {
  lin_rel_tol : double;
  lin_abs_tol : double;
  lin_print_level : Z;
  lin_max_iter : Z;
  prec : Preconditioner
}.

Record NonlinearSolverParameters : Type := {
  rel_tol : double;
  abs_tol : double;
  max_iter : Z;
  print_level : Z
}.

(** What [CompleteSetup] makes of them: the preconditioner [m_J_prec], the
    iterative solver [m_J_solver] and the settings of [m_newton_solver]. *)
Inductive JacobianPreconditioner : Type :=
| HypreBoomerAMG (PrintLevel : Z) (ElasticityOptions : ParFiniteElementSpace)
| HypreSmoother_l1Jacobi (PositiveDiagonal : bool).

Inductive IterativeSolverKind : Type :=
| GMRESSolver
| MINRESSolver.

Record IterativeSolver : Type := {
  solver_kind : IterativeSolverKind;
  RelTol : double;
  AbsTol : double;
  MaxIter : Z;
  PrintLevel : Z;
  GetPreconditioner : JacobianPreconditioner
}.

Inductive Operator : Type :=
| NonlinearSolidQuasiStaticOperator
| NonlinearSolidDynamicOperator.

Record NewtonSolver : Type := {
  GetSolver : IterativeSolver;
  newton_PrintLevel : Z;
  newton_RelTol : double;
  newton_AbsTol : double;
  newton_MaxIter : Z;
  iterative_mode : bool;
  GetOperator : Operator;
  (* were the mass and the viscosity form assembled? *)
  mass_and_viscosity_forms : bool
}.

Definition boomeramg_with_nodal_ordering : string :=
  "Attempting to use BoomerAMG with nodal ordering.".

(** [CompleteSetup] from "If dynamic, create the mass and viscosity forms"
    to its end.  [m_viscosity] is a shared pointer, null until
    [SetViscosity] is called with a coefficient; the viscosity form takes
    [*m_viscosity], and through a null pointer the run ends there. *)
Definition configure_solvers (space : ParFiniteElementSpace)
  (m_timestepper : TimestepMethod) (m_viscosity : option Coefficient)
  (m_lin_params : LinearSolverParameters)
  (m_nonlin_params : NonlinearSolverParameters) : Slic NewtonSolver :=
  (* If dynamic, create the mass and viscosity forms *)
  forms <-
    (if negb (is_QuasiStatic m_timestepper) then
       match m_viscosity with
       | Some _ => ret true
       | None => fun log => (None, log)
       end
     else ret false) ;;
  (* Set up the jacobian solver based on the linear solver options *)
  chosen <-
    (match prec m_lin_params with
     | BoomerAMG =>
         SLIC_WARNING_IF (match GetOrdering space with byVDIM => true | byNODES => false end)
                         boomeramg_with_nodal_ordering ;;;
         ret (HypreBoomerAMG (lin_print_level m_lin_params) space, GMRESSolver)
     | _ => ret (HypreSmoother_l1Jacobi true, MINRESSolver)
     end) ;;
  let '(m_J_prec, kind) := chosen in
  let m_J_solver :=
    {| solver_kind := kind;
       RelTol := lin_rel_tol m_lin_params;
       AbsTol := lin_abs_tol m_lin_params;
       MaxIter := lin_max_iter m_lin_params;
       PrintLevel := lin_print_level m_lin_params;
       GetPreconditioner := m_J_prec |} in
  (* Set the newton solve parameters and the operators *)
  ret {| GetSolver := m_J_solver;
         newton_PrintLevel := print_level m_nonlin_params;
         newton_RelTol := rel_tol m_nonlin_params;
         newton_AbsTol := abs_tol m_nonlin_params;
         newton_MaxIter := max_iter m_nonlin_params;
         iterative_mode := is_QuasiStatic m_timestepper;
         GetOperator := if is_QuasiStatic m_timestepper
                        then NonlinearSolidQuasiStaticOperator
                        else NonlinearSolidDynamicOperator;
         mass_and_viscosity_forms := forms |}.

(** The whole of [CompleteSetup] on a solver made by the constructor for a
    mesh of the given dimension. *)
Definition CompleteSetup_all (M : Mfem) (order Dimension : Z)
  (solver : NonlinearSolidSolver) (m_viscosity : option Coefficient)
  (m_lin_params : LinearSolverParameters) (m_nonlin_params : NonlinearSolverParameters)
  : Slic (NonlinearSolidSolver * ParNonlinearForm * NewtonSolver) :=
  done <- CompleteSetup M solver ;;
  newton <- configure_solvers (displacement_space order Dimension)
                              (m_timestepper solver) m_viscosity
                              m_lin_params m_nonlin_params ;;
  ret (done, newton).

End SolverSetup.

Module ThermalRun.

Import Solver.
Import ThermalConduction.

(** [setTemperature(temp)]: the coefficient is given the time [time_], the
    temperature is projected, and the state counts as initialized.
    [FiniteElementState::project] is no part of the sources: [project] is
    what it makes of the grid function and the true-dof vector. *)
Definition setTemperature
  (project : Coefficient -> double -> Vector * Vector -> Vector * Vector)
  (this : ThermalConductionFunctional) (temp : Coefficient)
  : ThermalConductionFunctional :=
  let '(gf, true_vec) :=
    project temp (time_ this) (temperature_gf this, temperature_true_vec this) in
  {| temperature_gf := gf; temperature_true_vec := true_vec;
     is_quasistatic_ := is_quasistatic_ this; gf_initialized_ := true;
     time_ := time_ this; cycle_ := cycle_ this;
     u_ := u_ this; dt_ := dt_ this; previous_dt_ := previous_dt_ this; J_ := J_ this;
     mass_assemblies := mass_assemblies this;
     stiffness_assemblies := stiffness_assemblies this |}.

(** The operators that the Jacobian requests of successive Newton
    iterations are answered with, [*J_] at each request; [None] is the
    reference through a null pointer. *)
Fixpoint GetGradient_results (srv : Services) (this : ThermalConductionFunctional)
  (trials : list Vector) : list (option HypreParMatrix) :=
  match trials with
  | [] => []
  | du_dt :: rest =>
      snd (GetGradient srv this du_dt)
      :: GetGradient_results srv (fst (GetGradient srv this du_dt)) rest
  end.

End ThermalRun.

(* ================================================================== *)
(** ** The CUDA test of [QuadratureData] *)

Module QuadratureDataCUDA.

Local Open Scope Z_scope.

(** [QuadratureData<int>]: [data(elem_id, quad_id)] is [data elem_id
    quad_id].  The class is no part of the sources; it holds one datum for
    every quadrature point of every element of the mesh. *)
Definition QuadratureData : Type := Z -> Z -> Z.

(** [data(elem_id, quad_id) = value]. *)
Definition assign (data : QuadratureData) (elem_id quad_id value : Z) : QuadratureData :=
  fun e q => if (e =? elem_id) && (q =? quad_id) then value else data e q.

(** The 32 bits of [unsigned int] and of [int]: the value of an arithmetic
    expression after wrap-around.  For [int] the language leaves overflow
    undefined; the device wraps. *)
Definition to_unsigned (z : Z) : Z := z mod 2 ^ 32.
Definition to_int (z : Z) : Z := (z + 2 ^ 31) mod 2 ^ 32 - 2 ^ 31.

(** [dim3] with the two components the test sets; the third is 1. *)
Record dim3 : Type := {
  x : Z;
  y : Z
}.

(** One thread of a launch: [blockIdx.x], [threadIdx.x], [threadIdx.y]. *)
Record Thread : Type := {
  blockIdx_x : Z;
  threadIdx_x : Z;
  threadIdx_y : Z
}.

(** [int elem_id = threadIdx.x + blockIdx.x * blockDim.x] and
    [int quad_id = threadIdx.y]. *)
Definition elem_id_of (blockDim : dim3) (t : Thread) : Z :=
  to_int (to_unsigned (threadIdx_x t + blockIdx_x t * x blockDim)).

Definition quad_id_of (t : Thread) : Z := to_int (threadIdx_y t).

(** The kernel [fill], as one thread runs it. *)
Definition fill (blockDim : dim3) (t : Thread) (output : QuadratureData)
  (num_elements num_quadrature_points : Z) : QuadratureData :=
  let elem_id := elem_id_of blockDim t in
  let quad_id := quad_id_of t in
  if (elem_id <? num_elements) && (quad_id <? num_quadrature_points) then
    assign output elem_id quad_id (to_int (elem_id * elem_id + quad_id))
  else output.

(** The kernel [copy], as one thread runs it: the destination after it. *)
Definition copy (blockDim : dim3) (t : Thread) (destination source : QuadratureData)
  (num_elements num_quadrature_points : Z) : QuadratureData :=
  let elem_id := elem_id_of blockDim t in
  let quad_id := quad_id_of t in
  if (elem_id <? num_elements) && (quad_id <? num_quadrature_points) then
    assign destination elem_id quad_id (source elem_id quad_id)
  else destination.

(** The numbers [0 .. n-1]. *)
Definition upto (n : Z) : list Z := map Z.of_nat (seq 0 (Z.to_nat n)).

(** The threads of a launch [<<<grids, blocks>>>] with [grids.x] blocks. *)
Definition threads (gridDim_x : Z) (blockDim : dim3) : list Thread :=
  flat_map (fun b =>
    flat_map (fun tx =>
      map (fun ty => {| blockIdx_x := b; threadIdx_x := tx; threadIdx_y := ty |})
          (upto (y blockDim)))
      (upto (x blockDim)))
    (upto gridDim_x).

(** The device refuses a launch without a block or a thread, or with more
    than 1024 threads in a block; the kernel then does not run. *)
Definition launch_valid (gridDim_x : Z) (blockDim : dim3) : bool :=
  (1 <=? gridDim_x) && (1 <=? x blockDim) && (1 <=? y blockDim)
  && (x blockDim * y blockDim <=? 1024).

(** The threads take effect in an order the device chooses, the
    [schedule]. *)
Definition run (kernel : Thread -> QuadratureData -> QuadratureData)
  (schedule : list Thread) (data : QuadratureData) : QuadratureData :=
  fold_left (fun d t => kernel t d) schedule data.

Definition launch (gridDim_x : Z) (blockDim : dim3)
  (kernel : Thread -> QuadratureData -> QuadratureData)
  (schedule : list Thread) (data : QuadratureData) : QuadratureData :=
  if launch_valid gridDim_x blockDim then run kernel schedule data else data.

(** [std::equal(source.begin(), source.end(), destination.begin())]. *)
Definition equal (num_elements num_quadrature_points : Z) (a b : QuadratureData) : bool :=
  forallb (fun e => forallb (fun q => a e q =? b e q) (upto num_quadrature_points))
          (upto num_elements).

(** [TEST(QuadratureDataCUDA, basic_fill_and_copy)] on a mesh with
    [num_elements] elements and [num_quadrature_points] points in each: the
    two launches run one after the other on the default stream.  The source
    and the destination after them, and what [EXPECT_TRUE] is given. *)
Definition elements_per_block : Z := 16.

Definition blocks (num_quadrature_points : Z) : dim3 :=
  {| x := to_unsigned elements_per_block; y := to_unsigned num_quadrature_points |}.

Definition grids (num_elements : Z) : Z :=
  to_unsigned (Z.quot num_elements elements_per_block).

Definition basic_fill_and_copy (num_elements num_quadrature_points : Z)
  (fill_schedule copy_schedule : list Thread) (source destination : QuadratureData)
  : QuadratureData * QuadratureData * bool :=
  let source :=
    launch (grids num_elements) (blocks num_quadrature_points)
           (fun t output =>
              fill (blocks num_quadrature_points) t output
                   num_elements num_quadrature_points)
           fill_schedule source in
  let destination :=
    launch (grids num_elements) (blocks num_quadrature_points)
           (fun t destination =>
              copy (blocks num_quadrature_points) t destination source
                   num_elements num_quadrature_points)
           copy_schedule destination in
  (source, destination, equal num_elements num_quadrature_points source destination).

End QuadratureDataCUDA.

(** Unfolding of the tensor operations and of the quantities of [J2], for
    evaluation at concrete inputs. *)
Ltac tensor_unfold :=
  unfold J2.returned_state, J2.plastic_strain_inc, J2.phi, J2.q, J2.eta, J2.s, J2.p,
         J2.el_strain, J2.shear, J2.bulk, normalize, norm, squared_norm, dev, sym,
         tr, dot, tensor_add, tensor_sub, tensor_scale, tensor_div, transpose,
         Identity, J2.dim in *;
  cbn [sum_upto Nat.eqb J2.beta J2.plastic_strain J2.accumulated_plastic_strain
       J2.E J2.nu J2.Hi J2.Hk J2.sigma_y J2.zero_state INR
       Examples.steel] in *;
  unfold zero_tensor, Examples.diag in *.

(* ================================================================== *)
(** * Properties *)

(** ** Sums and tensor algebra *)

Lemma sum_upto_ext (n : nat) (f g : nat -> double) :
  (forall k, (k < n)%nat -> f k = g k) -> sum_upto n f = sum_upto n g.
Proof.
  induction n as [|n IH]; intros Hfg; simpl.
  - reflexivity.
  - rewrite IH by (intros k Hk; apply Hfg; lia).
    rewrite (Hfg n) by lia. reflexivity.
Qed.

Lemma sum_upto_zero (n : nat) (f : nat -> double) :
  (forall k, (k < n)%nat -> f k = 0) -> sum_upto n f = 0.
Proof.
  induction n as [|n IH]; intros Hf; simpl.
  - reflexivity.
  - rewrite IH by (intros k Hk; apply Hf; lia).
    rewrite (Hf n) by lia. lra.
Qed.

Lemma sum_upto_nonneg (n : nat) (f : nat -> double) :
  (forall k, 0 <= f k) -> 0 <= sum_upto n f.
Proof.
  intros Hf. induction n as [|n IH]; simpl.
  - lra.
  - specialize (Hf n). lra.
Qed.

Lemma squared_norm_nonneg (dim : nat) (A : tensor) : 0 <= squared_norm dim A.
Proof.
  unfold squared_norm. apply sum_upto_nonneg. intros i.
  apply sum_upto_nonneg. intros j. nra.
Qed.

Lemma tr_ext (dim : nat) (A B : tensor) :
  (forall i, (i < dim)%nat -> A i i = B i i) -> tr dim A = tr dim B.
Proof. intros HAB. unfold tr. apply sum_upto_ext. exact HAB. Qed.

Lemma sqrt_of_square (x y : double) : 0 <= y -> x = y * y -> sqrt x = y.
Proof. intros Hy ->. apply sqrt_square. exact Hy. Qed.

(* ------------------------------------------------------------------ *)
(** ** The stateless models *)

(** C7: at a displacement gradient whose components are all zero, in any
    dimension and for any bulk and shear modulus, [LinearIsotropic] returns
    the zero stress tensor, and so does [NeoHookean] in the two dimensions
    it can be instantiated for. *)
Theorem zero_gradient_zero_stress (dim : nat) (du_dX : tensor) :
  (forall i j, (i < dim)%nat -> (j < dim)%nat -> du_dX i j = 0) ->
  (forall (m : LinearIsotropic.material) i j, (i < dim)%nat -> (j < dim)%nat ->
     LinearIsotropic.stress dim m du_dX i j = 0)
  /\ (dim = 2%nat \/ dim = 3%nat ->
      forall (m : NeoHookean.material) i j, (i < dim)%nat -> (j < dim)%nat ->
        NeoHookean.stress dim m du_dX i j = 0).
Proof.
  intros Hzero. split.
  - intros m i j Hi Hj. unfold LinearIsotropic.stress.
    cbv zeta. unfold tensor_add, tensor_scale, transpose.
    assert (Htr : tr dim (fun i j => 0.5 * (du_dX j i + du_dX i j)) = 0).
    { unfold tr. apply sum_upto_zero. intros k Hk. rewrite (Hzero k k Hk Hk). lra. }
    rewrite Htr, (Hzero i j Hi Hj), (Hzero j i Hj Hi). lra.
  - intros Hdim m i j Hi Hj. unfold NeoHookean.stress.
    cbv zeta. unfold tensor_add, tensor_scale, transpose, dot.
    assert (Hdot : sum_upto dim (fun k => du_dX i k * du_dX j k) = 0).
    { apply sum_upto_zero. intros k Hk. rewrite (Hzero i k Hi Hk). ring. }
    assert (Hdet : det dim (fun i j => Identity i j + du_dX i j) = 1).
    { destruct Hdim as [-> | ->]; unfold det, Identity; cbn [Nat.eqb];
        rewrite !Hzero by lia; ring. }
    rewrite Hdot, Hdet, ln_1, (Hzero i j Hi Hj), (Hzero j i Hj Hi). ring.
Qed.

Lemma zero_gradient_zero_stress_witness :
  LinearIsotropic.stress 3
    {| LinearIsotropic.density := 1; LinearIsotropic.K := 10; LinearIsotropic.G := 1 |}
    zero_tensor 0%nat 0%nat = 0
  /\ NeoHookean.stress 3
       {| NeoHookean.density := 1; NeoHookean.K := 10; NeoHookean.G := 1 |}
       zero_tensor 1%nat 2%nat = 0.
Proof.
  destruct (zero_gradient_zero_stress 3 zero_tensor (fun _ _ _ _ => eq_refl))
    as [Hlinear Hneo].
  split.
  - apply Hlinear; lia.
  - apply Hneo; [right; reflexivity | lia | lia].
Defined.

(* ------------------------------------------------------------------ *)
(** ** J2: one evaluation *)

(** The two branches of the admissibility test. *)
Lemma J2_stress_elastic (m : J2.material) (state : J2.State) (du_dX : tensor) :
  ~ 0 < J2.phi m state du_dX ->
  J2.stress m state du_dX
  = (J2.s m state du_dX +t J2.p m state du_dX *: Identity, state).
Proof.
  intros Hno. change (J2.stress m state du_dX)
    with (if Rlt_dec 0 (J2.phi m state du_dX)
          then (J2.s m state du_dX
                  -t (sqrt 6 * J2.shear m * J2.plastic_strain_inc m state du_dX)
                     *: normalize J2.dim (J2.eta m state du_dX)
                  +t J2.p m state du_dX *: Identity,
                J2.returned_state m state du_dX)
          else (J2.s m state du_dX +t J2.p m state du_dX *: Identity, state)).
  destruct (Rlt_dec 0 (J2.phi m state du_dX)) as [Hyield | _];
    [contradiction | reflexivity].
Qed.

Lemma J2_stress_plastic (m : J2.material) (state : J2.State) (du_dX : tensor) :
  0 < J2.phi m state du_dX ->
  J2.stress m state du_dX
  = (J2.s m state du_dX
       -t (sqrt 6 * J2.shear m * J2.plastic_strain_inc m state du_dX)
          *: normalize J2.dim (J2.eta m state du_dX)
       +t J2.p m state du_dX *: Identity,
     J2.returned_state m state du_dX).
Proof.
  intros Hyield. change (J2.stress m state du_dX)
    with (if Rlt_dec 0 (J2.phi m state du_dX)
          then (J2.s m state du_dX
                  -t (sqrt 6 * J2.shear m * J2.plastic_strain_inc m state du_dX)
                     *: normalize J2.dim (J2.eta m state du_dX)
                  +t J2.p m state du_dX *: Identity,
                J2.returned_state m state du_dX)
          else (J2.s m state du_dX +t J2.p m state du_dX *: Identity, state)).
  destruct (Rlt_dec 0 (J2.phi m state du_dX)) as [_ | Hno];
    [reflexivity | contradiction].
Qed.

(** The value of [q] at a concrete input, from the squared norm. *)
Lemma J2_q_value (m : J2.material) (state : J2.State) (du_dX : tensor) (v : double) :
  0 <= v -> 3 / 2 * squared_norm 3 (J2.eta m state du_dX) = v * v ->
  J2.q m state du_dX = v.
Proof.
  intros Hv Hsq. unfold J2.q, norm, J2.dim.
  rewrite <- sqrt_mult by (try apply squared_norm_nonneg; lra).
  apply sqrt_of_square; assumption.
Qed.

Lemma phi_steel_at_rest : J2.phi Examples.steel J2.zero_state zero_tensor = -3.
Proof.
  unfold J2.phi. rewrite (J2_q_value _ _ _ 0); [cbn; lra | lra |].
  tensor_unfold. lra.
Qed.

Lemma phi_steel_stretched :
  J2.phi Examples.steel J2.zero_state (Examples.diag (9 / 2) 0 0) = 6.
Proof.
  unfold J2.phi. rewrite (J2_q_value _ _ _ 9); [cbn; lra | lra |].
  tensor_unfold. lra.
Qed.

Lemma shear_steel : J2.shear Examples.steel = 1.
Proof. unfold J2.shear. cbn. lra. Qed.

(** C1: when the yield function is not positive, one evaluation returns
    [s + p * I] and leaves the state, all three components, as it was. *)
Theorem J2_elastic_step_keeps_state (m : J2.material) (state : J2.State)
  (du_dX : tensor) :
  J2.phi m state du_dX <= 0 ->
  fst (J2.stress m state du_dX) = J2.s m state du_dX +t J2.p m state du_dX *: Identity
  /\ snd (J2.stress m state du_dX) = state.
Proof.
  intros Hphi. rewrite J2_stress_elastic by lra. split; reflexivity.
Qed.

Lemma J2_elastic_step_keeps_state_witness :
  J2.phi Examples.steel J2.zero_state zero_tensor <= 0
  /\ snd (J2.stress Examples.steel J2.zero_state zero_tensor) = J2.zero_state.
Proof.
  assert (Hphi : J2.phi Examples.steel J2.zero_state zero_tensor <= 0)
    by (rewrite phi_steel_at_rest; lra).
  split.
  - exact Hphi.
  - exact (proj2 (J2_elastic_step_keeps_state Examples.steel J2.zero_state zero_tensor Hphi)).
Defined.

(** C2: when the yield function is positive, the plastic increment is
    [phi / (3 G + Hk + Hi)], the accumulated plastic strain grows by it, and
    the stress returned is [s - sqrt 6 * G * increment * normalize eta + p * I];
    an input with [phi = 2 (3 G + Hk + Hi)] adds exactly 2. *)
Theorem J2_plastic_step_increment (m : J2.material) (state : J2.State)
  (du_dX : tensor) :
  0 < J2.phi m state du_dX ->
  let inc := J2.phi m state du_dX / (3 * J2.shear m + J2.Hk m + J2.Hi m) in
  let n := normalize J2.dim (J2.eta m state du_dX) in
  let result := J2.stress m state du_dX in
  J2.accumulated_plastic_strain (snd result)
    = J2.accumulated_plastic_strain state + inc
  /\ fst result
     = J2.s m state du_dX -t (sqrt 6 * J2.shear m * inc) *: n
       +t J2.p m state du_dX *: Identity
  /\ (J2.phi m state du_dX = 2 * (3 * J2.shear m + J2.Hk m + J2.Hi m) ->
      J2.accumulated_plastic_strain (snd result)
      = J2.accumulated_plastic_strain state + 2).
Proof.
  intros Hphi inc n result. subst result.
  rewrite J2_stress_plastic by exact Hphi.
  cbn [fst snd J2.returned_state J2.accumulated_plastic_strain].
  split; [reflexivity | split; [reflexivity |]].
  intros Htwice. unfold J2.plastic_strain_inc. f_equal.
  rewrite Htwice in *. field. lra.
Qed.

Lemma J2_plastic_step_increment_witness :
  0 < J2.phi Examples.steel J2.zero_state (Examples.diag (9 / 2) 0 0)
  /\ J2.accumulated_plastic_strain
       (snd (J2.stress Examples.steel J2.zero_state (Examples.diag (9 / 2) 0 0))) = 2.
Proof.
  assert (Hphi : 0 < J2.phi Examples.steel J2.zero_state (Examples.diag (9 / 2) 0 0))
    by (rewrite phi_steel_stretched; lra).
  split.
  - exact Hphi.
  - destruct (J2_plastic_step_increment Examples.steel J2.zero_state
                (Examples.diag (9 / 2) 0 0) Hphi) as (_ & _ & Htwo).
    rewrite Htwo.
    + cbn. lra.
    + rewrite phi_steel_stretched, shear_steel. cbn. lra.
Defined.

(* ------------------------------------------------------------------ *)
(** ** The material models in binary64: what holds bit for bit *)

Section Binary64Facts.

Import PrimFloat SpecFloat FloatOps FloatAxioms.
Import Binary64.

Local Open Scope float_scope.

(** Addition of binary64 numbers is commutative, rounding included. *)
Lemma SFadd_comm (x y : spec_float) : SFadd prec emax x y = SFadd prec emax y x.
Proof.
  destruct x as [sx | sx | | sx mx ex], y as [sy | sy | | sy my ey];
    try reflexivity; try (destruct sx, sy; reflexivity).
  unfold SFadd. rewrite Z.min_comm, Z.add_comm. reflexivity.
Qed.

Lemma float_add_comm (x y : float) : x + y = y + x.
Proof. apply Prim2SF_inj. rewrite !add_spec. apply SFadd_comm. Qed.

Lemma symmetric_Identity : symmetric Identity.
Proof. intros i j. unfold Identity. rewrite Nat.eqb_sym. reflexivity. Qed.

Lemma symmetric_sym (A : tensor) : symmetric (sym A).
Proof. intros i j. unfold sym. rewrite float_add_comm. reflexivity. Qed.

Lemma symmetric_add (A B : tensor) :
  symmetric A -> symmetric B -> symmetric (tensor_add A B).
Proof. intros HA HB i j. unfold tensor_add. rewrite (HA i j), (HB i j). reflexivity. Qed.

Lemma symmetric_sub (A B : tensor) :
  symmetric A -> symmetric B -> symmetric (tensor_sub A B).
Proof. intros HA HB i j. unfold tensor_sub. rewrite (HA i j), (HB i j). reflexivity. Qed.

Lemma symmetric_scale (c : float) (A : tensor) : symmetric A -> symmetric (tensor_scale c A).
Proof. intros HA i j. unfold tensor_scale. rewrite (HA i j). reflexivity. Qed.

Lemma symmetric_div (A : tensor) (c : float) : symmetric A -> symmetric (tensor_div A c).
Proof. intros HA i j. unfold tensor_div. rewrite (HA i j). reflexivity. Qed.

Lemma symmetric_dev (dim : nat) (A : tensor) : symmetric A -> symmetric (dev dim A).
Proof.
  intros HA i j. unfold dev. rewrite (Nat.eqb_sym j i), (HA i j). reflexivity.
Qed.

(** The elastic branch of [J2], taken when the test the code makes fails. *)
Lemma J2_binary64_elastic (m : J2.material) (state : J2.State) (du_dX : tensor) :
  (0 <? J2.phi m state du_dX) = false ->
  snd (J2.stress m state du_dX) = state.
Proof.
  intros Hno. unfold J2.stress. cbv zeta.
  change (0 <? _ - (J2.sigma_y m + J2.Hi m * J2.accumulated_plastic_strain state))
    with (0 <? J2.phi m state du_dX).
  rewrite Hno. reflexivity.
Qed.

(** C6, as amended: a second evaluation at the same displacement
    gradient, from the state the first one left, returns the same stress and
    leaves the same state whenever the first evaluation is elastic, that
    is, whenever the test [phi > 0.0] of the code fails.  This is a fact of
    the program as it runs, in binary64: nothing is rounded on the way. *)
Theorem J2_second_evaluation (m : Binary64.J2.material) (state : Binary64.J2.State)
  (du_dX : Binary64.tensor) :
  (0 <? Binary64.J2.phi m state du_dX) = false ->
  let first := Binary64.J2.stress m state du_dX in
  let second := Binary64.J2.stress m (snd first) du_dX in
  second = first.
Proof.
  intros Hno first second. subst second first.
  rewrite (J2_binary64_elastic m state du_dX Hno). reflexivity.
Qed.

Lemma J2_second_evaluation_witness :
  Binary64.J2.stress Binary64.steel
    (snd (Binary64.J2.stress Binary64.steel Binary64.J2.zero_state (Binary64.diag 1 0 0)))
    (Binary64.diag 1 0 0)
  = Binary64.J2.stress Binary64.steel Binary64.J2.zero_state (Binary64.diag 1 0 0).
Proof.
  apply (J2_second_evaluation Binary64.steel Binary64.J2.zero_state (Binary64.diag 1 0 0)).
  vm_compute. reflexivity.
Defined.

(** C6 as stated fails after a plastic step: steel (shear modulus 1, yield
    stress 3, no hardening) from the zero state at [diag 3 0 0].  The first
    evaluation leaves the accumulated plastic strain at 0.9999999999999997;
    at the second one the yield function is 2^-50, about 8.9e-16, which is
    positive, so the return mapping runs again and the accumulated plastic
    strain becomes 1. *)
Lemma J2_second_evaluation_yields_again :
  let first :=
    Binary64.J2.stress Binary64.steel Binary64.J2.zero_state (Binary64.diag 3 0 0) in
  let second := Binary64.J2.stress Binary64.steel (snd first) (Binary64.diag 3 0 0) in
  Binary64.J2.accumulated_plastic_strain (snd first) = 0x1.ffffffffffffdp-1
  /\ Binary64.J2.phi Binary64.steel (snd first) (Binary64.diag 3 0 0) = 0x1p-50
  /\ Binary64.J2.accumulated_plastic_strain (snd second) = 1
  /\ snd second <> snd first.
Proof.
  cbv zeta.
  assert (Hfirst : Binary64.J2.accumulated_plastic_strain
                     (snd (Binary64.J2.stress Binary64.steel Binary64.J2.zero_state
                             (Binary64.diag 3 0 0))) = 0x1.ffffffffffffdp-1)
    by (vm_compute; reflexivity).
  assert (Hsecond : Binary64.J2.accumulated_plastic_strain
                      (snd (Binary64.J2.stress Binary64.steel
                              (snd (Binary64.J2.stress Binary64.steel
                                      Binary64.J2.zero_state (Binary64.diag 3 0 0)))
                              (Binary64.diag 3 0 0))) = 1)
    by (vm_compute; reflexivity).
  split; [exact Hfirst | split; [vm_compute; reflexivity | split; [exact Hsecond |]]].
  intros Heq. rewrite Heq, Hfirst in Hsecond.
  apply (f_equal (fun v => v =? 1)) in Hsecond.
  vm_compute in Hsecond. discriminate Hsecond.
Qed.
(** C9, as amended: an elastic evaluation, one at which the test
    [phi > 0.0] fails, leaves the state as it is, and with it the trace of
    the plastic strain and the trace of the back-stress, whatever they were:
    across elastic evaluations the two tensors stay traceless bit for
    bit. *)
Theorem J2_keeps_traceless (m : Binary64.J2.material) (state : Binary64.J2.State)
  (du_dX : Binary64.tensor) :
  (0 <? Binary64.J2.phi m state du_dX) = false ->
  let after := snd (Binary64.J2.stress m state du_dX) in
  after = state
  /\ Binary64.tr 3 (Binary64.J2.plastic_strain after)
     = Binary64.tr 3 (Binary64.J2.plastic_strain state)
  /\ Binary64.tr 3 (Binary64.J2.beta after) = Binary64.tr 3 (Binary64.J2.beta state).
Proof.
  intros Hno after. subst after.
  rewrite (J2_binary64_elastic m state du_dX Hno). repeat split.
Qed.

Lemma J2_keeps_traceless_witness :
  Binary64.tr 3
    (Binary64.J2.plastic_strain
       (snd (Binary64.J2.stress Binary64.steel Binary64.J2.zero_state
               (Binary64.diag 1 0 0))))
  = Binary64.tr 3 (Binary64.J2.plastic_strain Binary64.J2.zero_state).
Proof.
  refine (proj1 (proj2 (J2_keeps_traceless Binary64.steel Binary64.J2.zero_state
                          (Binary64.diag 1 0 0) _))).
  vm_compute. reflexivity.
Defined.

(** C9 as stated fails at plastic evaluations.  Steel from the zero
    state, whose two tensors have the trace 0, at [diag 2 0 0]: the plastic
    strain written has the trace 2^-54, about 5.6e-17, not 0, and the trace
    of the elastic strain of the next evaluation, which the volumetric stress
    is [K] times, is 1.9999999999999998 where the trace of [sym du_dX] is 2.
    And with the yield stress -3 at the zero gradient the step is plastic
    with [norm(eta) = 0], [normalize] divides zero by zero, and the plastic
    strain written is NaN in every entry. *)
Lemma J2_plastic_step_leaves_a_trace :
  Binary64.tr 3 (Binary64.J2.plastic_strain Binary64.J2.zero_state) = 0
  /\ Binary64.tr 3 (Binary64.J2.beta Binary64.J2.zero_state) = 0
  /\ Binary64.J2.phi Binary64.steel Binary64.J2.zero_state (Binary64.diag 2 0 0)
     = 0x1.ffffffffffffcp-1
  /\ Binary64.tr 3
       (Binary64.J2.plastic_strain
          (snd (Binary64.J2.stress Binary64.steel Binary64.J2.zero_state
                  (Binary64.diag 2 0 0))))
     = 0x1p-54
  /\ (0x1p-54 =? 0) = false
  /\ Binary64.tr 3 (Binary64.sym (Binary64.diag 2 0 0)) = 2
  /\ Binary64.tr 3
       (Binary64.tensor_sub (Binary64.sym (Binary64.diag 2 0 0))
          (Binary64.J2.plastic_strain
             (snd (Binary64.J2.stress Binary64.steel Binary64.J2.zero_state
                     (Binary64.diag 2 0 0)))))
     = 0x1.fffffffffffffp+0
  /\ Binary64.J2.phi Binary64.yielding_at_rest Binary64.J2.zero_state Binary64.zero_tensor
     = 3
  /\ Binary64.tr 3
       (Binary64.J2.plastic_strain
          (snd (Binary64.J2.stress Binary64.yielding_at_rest Binary64.J2.zero_state
                  Binary64.zero_tensor)))
     = nan.
Proof.
  repeat split; vm_compute; reflexivity.
Qed.

(** C10, as amended: bit for bit, the stress of [LinearIsotropic] is
    symmetric at every displacement gradient, and the stress of [J2] is
    symmetric at every displacement gradient when the plastic strain and the
    back-stress of the state are symmetric; [J2] then leaves them symmetric,
    so this holds of every state reached from the zero state. *)
Theorem stress_symmetric :
  (forall (dim : nat) (m : Binary64.LinearIsotropic.material) (du_dX : Binary64.tensor)
          (i j : nat),
      Binary64.LinearIsotropic.stress dim m du_dX i j
      = Binary64.LinearIsotropic.stress dim m du_dX j i)
  /\ (forall (m : Binary64.J2.material) (state : Binary64.J2.State)
             (du_dX : Binary64.tensor),
         (forall i j, Binary64.J2.plastic_strain state i j
                      = Binary64.J2.plastic_strain state j i) ->
         (forall i j, Binary64.J2.beta state i j = Binary64.J2.beta state j i) ->
         let after := Binary64.J2.stress m state du_dX in
         (forall i j, fst after i j = fst after j i)
         /\ (forall i j, Binary64.J2.plastic_strain (snd after) i j
                         = Binary64.J2.plastic_strain (snd after) j i)
         /\ (forall i j, Binary64.J2.beta (snd after) i j
                         = Binary64.J2.beta (snd after) j i)).
Proof.
  split.
  - intros dim m du_dX. unfold Binary64.LinearIsotropic.stress. cbv zeta.
    apply symmetric_add; apply symmetric_scale.
    + apply symmetric_Identity.
    + apply symmetric_scale. intros i j. unfold tensor_add, transpose.
      apply float_add_comm.
  - intros m state du_dX Hep Hbeta. unfold Binary64.J2.stress. cbv zeta.
    assert (Hel : symmetric (tensor_sub (sym du_dX) (Binary64.J2.plastic_strain state)))
      by (apply symmetric_sub; [apply symmetric_sym | exact Hep]).
    pose proof (symmetric_scale (2 * (0.5 * Binary64.J2.E m / (1 + Binary64.J2.nu m)))
                  _ (symmetric_dev Binary64.J2.dim _ Hel)) as Hs.
    pose proof (symmetric_sub _ _ Hs Hbeta) as Heta.
    pose proof (symmetric_div _ (norm Binary64.J2.dim
                                   (tensor_sub
                                      (tensor_scale
                                         (2 * (0.5 * Binary64.J2.E m / (1 + Binary64.J2.nu m)))
                                         (dev Binary64.J2.dim
                                            (tensor_sub (sym du_dX)
                                               (Binary64.J2.plastic_strain state))))
                                      (Binary64.J2.beta state))) Heta) as Hn.
    destruct (0 <? _); cbn [fst snd Binary64.J2.plastic_strain Binary64.J2.beta].
    + split; [| split].
      * apply symmetric_add; [apply symmetric_sub; [exact Hs |] |].
        -- apply symmetric_scale. exact Hn.
        -- apply symmetric_scale, symmetric_Identity.
      * apply symmetric_add; [exact Hep | apply symmetric_scale; exact Hn].
      * apply symmetric_add; [exact Hbeta | apply symmetric_scale; exact Hn].
    + split; [| split]; try assumption.
      apply symmetric_add; [exact Hs | apply symmetric_scale, symmetric_Identity].
Qed.

Lemma stress_symmetric_witness :
  fst (Binary64.J2.stress Binary64.steel Binary64.J2.zero_state Binary64.shear_in_plane)
      0%nat 1%nat
  = fst (Binary64.J2.stress Binary64.steel Binary64.J2.zero_state Binary64.shear_in_plane)
        1%nat 0%nat.
Proof.
  refine (proj1 (proj2 stress_symmetric Binary64.steel Binary64.J2.zero_state
                   Binary64.shear_in_plane _ _) 0%nat 1%nat).
  - intros i j. reflexivity.
  - intros i j. reflexivity.
Defined.

(** C10 as stated fails for [NeoHookean]: the code adds [du_dX *
    transpose(du_dX)], [transpose(du_dX)] and [du_dX] in this order, and the
    two orders in which the off-diagonal entries meet round differently.  At
    the gradient ((0.03, 0.1), (0.3, 0)), where [det(I + du_dX)] is 1 and
    its logarithm 0, with [K = 10] and [G = 1]: the entry [0][1] of the
    stress is 0.40900000000000003 and the entry [1][0] is
    0.40899999999999997. *)
Lemma NeoHookean_stress_not_symmetric :
  Binary64.det 2 (tensor_add Identity Binary64.shear_in_plane) = 1
  /\ exists stress,
       Binary64.NeoHookean.stress 2
         {| Binary64.NeoHookean.density := 1; Binary64.NeoHookean.K := 10;
            Binary64.NeoHookean.G := 1 |}
         Binary64.shear_in_plane
       = Some stress
       /\ stress 0%nat 1%nat = 0x1.a2d0e56041894p-2
       /\ stress 1%nat 0%nat = 0x1.a2d0e56041893p-2
       /\ stress 0%nat 1%nat <> stress 1%nat 0%nat.
Proof.
  split; [vm_compute; reflexivity |].
  eexists. split.
  - unfold Binary64.NeoHookean.stress. cbv zeta.
    assert (Hlog : Binary64.log (det 2 (tensor_add Identity Binary64.shear_in_plane))
                   = Some 0) by (vm_compute; reflexivity).
    rewrite Hlog. reflexivity.
  - assert (H01 : forall A B : float, A = 0x1.a2d0e56041894p-2 -> B = 0x1.a2d0e56041893p-2 ->
                    A <> B).
    { intros A B -> -> Heq. apply (f_equal (fun v => v =? 0x1.a2d0e56041893p-2)) in Heq.
      vm_compute in Heq. discriminate Heq. }
    split; [vm_compute; reflexivity | split; [vm_compute; reflexivity |]].
    apply H01; vm_compute; reflexivity.
Qed.

End Binary64Facts.

(* ------------------------------------------------------------------ *)
(** ** [CompleteSetup]: the essential boundary conditions *)

Section Setup.

Import Solver.

Variable M : Mfem.

(** Membership in a sorted, deduplicated array. *)
Lemma In_insert_sorted (x y : Z) (l : Array_int) :
  In y (insert_sorted x l) <-> y = x \/ In y l.
Proof.
  induction l as [|z l IH]; simpl.
  - intuition.
  - destruct (x <=? z)%Z; simpl; rewrite ?IH; intuition.
Qed.

Lemma In_Sort (y : Z) (l : Array_int) : In y (Sort l) <-> In y l.
Proof.
  induction l as [|x l IH]; simpl.
  - reflexivity.
  - rewrite In_insert_sorted, IH. intuition.
Qed.

Lemma In_Unique (y : Z) (l : Array_int) : In y (Unique l) <-> In y l.
Proof.
  induction l as [|x l IH].
  - reflexivity.
  - destruct l as [|z l'].
    + reflexivity.
    + change (Unique (x :: z :: l'))
        with (if (x =? z)%Z then Unique (z :: l') else x :: Unique (z :: l')).
      destruct (Z.eqb_spec x z) as [-> | Hne].
      * rewrite IH. simpl. intuition.
      * simpl In at 1. rewrite IH. simpl. intuition.
Qed.

Lemma transform_scalar_dof (bc : BoundaryCondition) (tdofs : Array_int)
  (log : list Message) :
  transform (scalar_dof M bc) tdofs log
  = (Some (map (VDofToDof M) tdofs), log ++ warnings M bc tdofs).
Proof.
  revert log. induction tdofs as [|tdof tdofs IH]; intros log.
  - simpl. unfold ret. rewrite app_nil_r. reflexivity.
  - cbn [transform]. unfold bind at 1. unfold scalar_dof at 1.
    unfold bind at 1, SLIC_WARNING_IF, ret at 1.
    unfold bind at 1. rewrite IH. unfold ret.
    unfold warnings at 2. cbn [flat_map]. fold (warnings M bc tdofs).
    unfold mismatch.
    destruct (negb (component bc =? -1)%Z
              && negb (tdof =? DofToVDof M (VDofToDof M tdof) (component bc))%Z);
      cbn [map]; rewrite <- ?app_assoc; reflexivity.
Qed.

Lemma project_essential_fits (bc : BoundaryCondition) (gf : Vector)
  (essential_dofs : Array_int) (log : list Message) :
  coefficient_fits bc = true ->
  exists gf',
    project_essential M (gf, essential_dofs) bc log
    = (Some (gf', essential_dofs ++ true_dofs bc), log ++ warnings M bc (true_dofs bc)).
Proof.
  intros Hfits. unfold project_essential, coefficient_fits in *.
  unfold bind at 1. rewrite transform_scalar_dof.
  destruct (component bc =? -1)%Z; destruct (coef bc) as [c | c]; try discriminate;
    eexists; reflexivity.
Qed.

Lemma for_each_project_essential (bcs : list BoundaryCondition) (gf : Vector)
  (essential_dofs : Array_int) (log : list Message) :
  forallb coefficient_fits bcs = true ->
  exists gf',
    for_each (project_essential M) bcs (gf, essential_dofs) log
    = (Some (gf', essential_dofs ++ flat_map true_dofs bcs),
       log ++ flat_map (fun bc => warnings M bc (true_dofs bc)) bcs).
Proof.
  revert gf essential_dofs log.
  induction bcs as [|bc bcs IH]; intros gf essential_dofs log Hfit.
  - exists gf. simpl. unfold ret. rewrite !app_nil_r. reflexivity.
  - simpl in Hfit. apply andb_prop in Hfit as [Hbc Hbcs].
    destruct (project_essential_fits bc gf essential_dofs log Hbc) as [gf1 H1].
    destruct (IH gf1 (essential_dofs ++ true_dofs bc)
                 (log ++ warnings M bc (true_dofs bc)) Hbcs) as [gf2 H2].
    exists gf2. cbn [for_each]. unfold bind. rewrite H1. cbv beta iota. rewrite H2.
    cbn [flat_map]. rewrite <- !app_assoc. reflexivity.
Qed.

Lemma for_each_add_traction (bcs : list BoundaryCondition)
  (integrators : list (VectorCoefficient * Array_int)) (log : list Message) :
  forallb (fun bc => holds_vector (coef bc)) bcs = true ->
  exists integrators',
    for_each add_traction bcs integrators log = (Some integrators', log).
Proof.
  revert integrators log.
  induction bcs as [|bc bcs IH]; intros integrators log Hvec.
  - exists integrators. reflexivity.
  - simpl in Hvec. apply andb_prop in Hvec as [Hbc Hbcs].
    cbn [for_each]. unfold bind at 1. unfold add_traction at 1.
    destruct (coef bc) as [c | c]; [discriminate |].
    cbn. apply IH. exact Hbcs.
Qed.

Lemma warnings_all_warnings (bc : BoundaryCondition) (tdofs : Array_int) (msg : Message) :
  In msg (warnings M bc tdofs) -> msg = Warning tdofs_do_not_match.
Proof.
  unfold warnings. rewrite in_flat_map. intros (tdof & _ & Hin).
  destruct (mismatch M bc tdof); simpl in Hin; intuition.
Qed.

Lemma warnings_mismatch (bc : BoundaryCondition) (tdofs : Array_int) (tdof : Z) :
  In tdof tdofs -> mismatch M bc tdof = true ->
  In (Warning tdofs_do_not_match) (warnings M bc tdofs).
Proof.
  intros Hin Hmis. unfold warnings. rewrite in_flat_map.
  exists tdof. split; [exact Hin |]. rewrite Hmis. left. reflexivity.
Qed.

(** A set-up whose coefficients are all of the kind asked for runs to its
    end, and logs the warnings of the component check and nothing else. *)
Lemma CompleteSetup_runs (solver : NonlinearSolidSolver) :
  forallb (fun bc => holds_vector (coef bc)) (m_nat_bdr solver) = true ->
  forallb coefficient_fits (m_ess_bdr solver) = true ->
  exists solver' form,
    CompleteSetup M solver []
    = (Some (solver', form),
       flat_map (fun bc => warnings M bc (true_dofs bc)) (m_ess_bdr solver))
    /\ ess_tdof_list form = Unique (Sort (flat_map true_dofs (m_ess_bdr solver))).
Proof.
  intros Hnat Hess. unfold CompleteSetup.
  destruct (for_each_add_traction (m_nat_bdr solver) [] [] Hnat) as [integrators Hint].
  destruct (for_each_project_essential (m_ess_bdr solver) (m_displacement_gf solver)
              [] [] Hess) as [gf Hgf].
  unfold bind. rewrite Hint. cbv beta iota. rewrite Hgf. cbv beta iota. cbn [app]. unfold ret.
  eexists. eexists. split; reflexivity.
Qed.

End Setup.

(** C8: for a condition on a single component, a constrained true dof whose
    identity is not the component asked for is logged as a warning, the
    set-up runs to its end without an error message, and the dof is in the
    list of essential true dofs as it was given. *)
Theorem component_mismatch_is_a_warning (M : Solver.Mfem)
  (solver : Solver.NonlinearSolidSolver) (bc : Solver.BoundaryCondition) (tdof : Z) :
  forallb (fun bc => Solver.holds_vector (Solver.coef bc)) (Solver.m_nat_bdr solver) = true ->
  forallb Solver.coefficient_fits (Solver.m_ess_bdr solver) = true ->
  In bc (Solver.m_ess_bdr solver) ->
  Solver.component bc <> (-1)%Z ->
  In tdof (Solver.true_dofs bc) ->
  tdof <> Solver.DofToVDof M (Solver.VDofToDof M tdof) (Solver.component bc) ->
  exists solver' form log,
    Solver.CompleteSetup M solver [] = (Some (solver', form), log)
    /\ In (Warning Solver.tdofs_do_not_match) log
    /\ (forall msg, In msg log -> is_error msg = false)
    /\ In tdof (Solver.ess_tdof_list form).
Proof.
  intros Hnat Hess Hbc Hcomp Htdof Hmiss.
  destruct (CompleteSetup_runs M solver Hnat Hess) as (solver' & form & Hrun & Hlist).
  exists solver', form. eexists. split; [exact Hrun |].
  split; [| split].
  - rewrite in_flat_map. exists bc. split; [exact Hbc |].
    apply warnings_mismatch with tdof; [exact Htdof |].
    unfold Solver.mismatch.
    destruct (Z.eqb_spec (Solver.component bc) (-1)) as [Heq | _]; [contradiction |].
    destruct (Z.eqb_spec tdof
                (Solver.DofToVDof M (Solver.VDofToDof M tdof) (Solver.component bc)))
      as [Heq | _]; [contradiction | reflexivity].
  - intros msg Hin. rewrite in_flat_map in Hin. destruct Hin as (bc' & _ & Hin).
    rewrite (warnings_all_warnings M bc' _ msg Hin). reflexivity.
  - rewrite Hlist, In_Unique, In_Sort, in_flat_map.
    exists bc. split; assumption.
Qed.

Lemma component_mismatch_is_a_warning_witness :
  exists solver' form log,
    Solver.CompleteSetup (Scenario.serial true)
      (Scenario.fresh Solver.QuasiStatic 10) []
    = (Some (solver', form), log)
    /\ In (Warning Solver.tdofs_do_not_match) log
    /\ (forall msg, In msg log -> is_error msg = false)
    /\ In 4%Z (Solver.ess_tdof_list form).
Proof.
  apply (component_mismatch_is_a_warning (Scenario.serial true)
           (Scenario.fresh Solver.QuasiStatic 10) Scenario.fixed_x 4%Z).
  - reflexivity.
  - reflexivity.
  - left. reflexivity.
  - discriminate.
  - right. left. reflexivity.
  - discriminate.
Defined.

(* ------------------------------------------------------------------ *)
(** ** [AdvanceTimestep] *)

(** The quasi-static branch, with the iterate of the Newton solver named. *)
Lemma QuasiStaticSolve_iterate (M : Solver.Mfem) (solver : Solver.NonlinearSolidSolver) :
  Solver.QuasiStaticSolve M solver
  = Solver.set_displacement_true_vec solver
      (fst (Solver.Newton_Mult M (Solver.Nodes solver) (fun _ => 0)
              (Solver.m_displacement_true_vec solver))).
Proof.
  unfold Solver.QuasiStaticSolve.
  destruct (Solver.Newton_Mult M (Solver.Nodes solver) (fun _ => 0)
              (Solver.m_displacement_true_vec solver)) as [x converged].
  reflexivity.
Qed.

(** The advance of the thermal solver does not read the answer either. *)
Lemma advanceTimestep_any_answer (srv : ThermalConduction.Services)
  (converged : ThermalConduction.ThermalConductionFunctional ->
               Solver.Vector -> Solver.Vector -> bool)
  (this : ThermalConduction.ThermalConductionFunctional) (dt : double)
  (log : list Message) :
  ThermalConduction.advanceTimestep
    (ThermalConduction.with_convergence srv converged) this dt log
  = ThermalConduction.advanceTimestep srv this dt log.
Proof.
  unfold ThermalConduction.advanceTimestep.
  cbn [ThermalConduction.with_convergence ThermalConduction.initializeTrueVec
       ThermalConduction.distributeSharedDofs ThermalConduction.ode_Step
       ThermalConduction.AXOM_DEBUG ThermalConduction.nonlin_solver_Mult].
  destruct (ThermalConduction.is_quasistatic_ _); [| reflexivity].
  match goal with
  | |- context [ThermalConduction.nonlin_solver_Mult srv ?t ?b ?x] =>
      destruct (ThermalConduction.nonlin_solver_Mult srv t b x) as [[x' answer] J]
  end.
  reflexivity.
Qed.

Lemma advanceTimestep_counts (srv : ThermalConduction.Services)
  (this this' : ThermalConduction.ThermalConductionFunctional) (dt dt' : double)
  (log log' : list Message) :
  ThermalConduction.advanceTimestep srv this dt log = (Some (this', dt'), log') ->
  ThermalConduction.cycle_ this' = (ThermalConduction.cycle_ this + 1)%Z.
Proof.
  unfold ThermalConduction.advanceTimestep, bind, ret.
  destruct this as [gf tv quasistatic initialized time cycle u dt0 previous J mass stiffness].
  cbn [ThermalConduction.is_quasistatic_ ThermalConduction.set_temperature].
  destruct quasistatic.
  - match goal with
    | |- context [ThermalConduction.nonlin_solver_Mult srv ?t ?b ?x] =>
        destruct (ThermalConduction.nonlin_solver_Mult srv t b x) as [[x' answer] J']
    end.
    cbn. intros Hrun. injection Hrun as <- _ _. reflexivity.
  - unfold SLIC_ERROR_IF.
    destruct (ThermalConduction.AXOM_DEBUG srv && negb _); [discriminate |].
    cbn. intros Hrun. injection Hrun as <- _ _. reflexivity.
Qed.

(** C4, as amended: [AdvanceTimestep] returns no status and does not read
    what the Newton solver says about convergence: with any other answer to
    that question the call leaves the same solver and the same [dt], the
    cycle counter goes up by one, and the mesh is given the deformed nodes.
    The same holds of [ThermalConductionFunctional::advanceTimestep]. *)
Theorem AdvanceTimestep_ignores_convergence :
  (forall (M : Solver.Mfem)
          (converged : Solver.Vector -> Solver.Vector -> Solver.Vector -> bool)
          (solver : Solver.NonlinearSolidSolver) (dt : double),
      Solver.AdvanceTimestep (Solver.with_convergence M converged) solver dt
      = Solver.AdvanceTimestep M solver dt
      /\ Solver.m_cycle (fst (Solver.AdvanceTimestep M solver dt))
         = (Solver.m_cycle solver + 1)%Z
      /\ Solver.mesh_nodes (fst (Solver.AdvanceTimestep M solver dt))
         = Solver.deformed_nodes)
  /\ (forall (srv : ThermalConduction.Services)
             (converged : ThermalConduction.ThermalConductionFunctional ->
                          Solver.Vector -> Solver.Vector -> bool)
             (this : ThermalConduction.ThermalConductionFunctional) (dt : double)
             (log : list Message),
         ThermalConduction.advanceTimestep
           (ThermalConduction.with_convergence srv converged) this dt log
         = ThermalConduction.advanceTimestep srv this dt log
         /\ forall this' dt' log',
              ThermalConduction.advanceTimestep srv this dt log
              = (Some (this', dt'), log') ->
              ThermalConduction.cycle_ this' = (ThermalConduction.cycle_ this + 1)%Z).
Proof.
  split.
  - intros M converged solver dt.
    destruct solver as [method vgf vtrue dgf dtrue ref def nodes nat ess time cycle].
    unfold Solver.AdvanceTimestep.
    destruct method; cbn [Solver.is_QuasiStatic Solver.m_timestepper
                          Solver.set_velocity_true_vec Solver.set_displacement_true_vec
                          Solver.set_mesh_nodes].
    1: { rewrite !QuasiStaticSolve_iterate. cbn. repeat split; reflexivity. }
    all: cbn;
      match goal with
      | |- context [Solver.ODE_Step ?M' ?n ?b ?t ?d] =>
          destruct (Solver.ODE_Step M' n b t d) as [[block time'] dt']
      end;
      cbn; repeat split; reflexivity.
  - intros srv converged this dt log. split.
    + apply advanceTimestep_any_answer.
    + intros this' dt' log'. apply advanceTimestep_counts.
Qed.

Lemma AdvanceTimestep_ignores_convergence_witness :
  exists this' dt',
    ThermalConduction.advanceTimestep (Scenario.thermal false)
      (Scenario.stepping (1 / 4) (1 / 2)) (1 / 4) []
    = (Some (this', dt'), [])
    /\ ThermalConduction.cycle_ this' = 4%Z.
Proof.
  eexists. eexists.
  assert (Hrun : ThermalConduction.advanceTimestep (Scenario.thermal false)
                   (Scenario.stepping (1 / 4) (1 / 2)) (1 / 4) []
                 = (Some (_, _), [])) by reflexivity.
  split.
  - exact Hrun.
  - exact (proj2 (proj2 AdvanceTimestep_ignores_convergence (Scenario.thermal false)
                    (fun _ _ _ => true) (Scenario.stepping (1 / 4) (1 / 2)) (1 / 4) [])
             _ _ _ Hrun).
Defined.

(** C4 as stated fails: a Newton solver that answers "not converged" and a
    quasi-static step: the cycle counter goes from 0 to 1, the mesh is given
    the deformed nodes, the reference nodes plus the last iterate, and the
    outcome is the outcome of the same step with the answer "converged". *)
Lemma failed_newton_step_is_accepted :
  snd (Solver.Newton_Mult (Scenario.serial false) (fun _ => 10) (fun _ => 0) (fun _ => 0))
  = false
  /\ Solver.m_cycle
       (fst (Solver.AdvanceTimestep (Scenario.serial false)
               (Scenario.fresh Solver.QuasiStatic 10) 1)) = 1%Z
  /\ Solver.mesh_nodes
       (fst (Solver.AdvanceTimestep (Scenario.serial false)
               (Scenario.fresh Solver.QuasiStatic 10) 1)) = Solver.deformed_nodes
  /\ Solver.m_deformed_nodes
       (fst (Solver.AdvanceTimestep (Scenario.serial false)
               (Scenario.fresh Solver.QuasiStatic 10) 1)) 0%nat = 11
  /\ Solver.AdvanceTimestep (Scenario.serial false) (Scenario.fresh Solver.QuasiStatic 10) 1
     = Solver.AdvanceTimestep (Scenario.serial true) (Scenario.fresh Solver.QuasiStatic 10) 1.
Proof.
  repeat split; try reflexivity.
  cbn. unfold Solver.Vector_Add, Solver.Vector_Set. lra.
Qed.

(** C5, as amended: after [AdvanceTimestep] the mesh has the deformed nodes;
    in the quasi-static regime they are the reference nodes plus the
    displacement field just solved for, and in the dynamic regime they are
    the displacement field that the ODE step left, by itself. *)
Theorem AdvanceTimestep_deformed_nodes (M : Solver.Mfem)
  (solver : Solver.NonlinearSolidSolver) (dt : double) :
  let solver' := fst (Solver.AdvanceTimestep M solver dt) in
  Solver.mesh_nodes solver' = Solver.deformed_nodes
  /\ Solver.Nodes solver' = Solver.m_deformed_nodes solver'
  /\ (Solver.m_timestepper solver = Solver.QuasiStatic ->
      Solver.m_displacement_gf solver'
      = Solver.SetFromTrueDofs M
          (fst (Solver.Newton_Mult M (Solver.m_reference_nodes solver) (fun _ => 0)
                  (Solver.GetTrueDofs M (Solver.m_displacement_gf solver))))
      /\ forall i, Solver.m_deformed_nodes solver' i
                   = Solver.m_reference_nodes solver i + Solver.m_displacement_gf solver' i)
  /\ (Solver.m_timestepper solver <> Solver.QuasiStatic ->
      Solver.m_displacement_gf solver'
      = Solver.SetFromTrueDofs M
          (snd (fst (fst (Solver.ODE_Step M (Solver.m_reference_nodes solver)
                            (Solver.GetTrueDofs M (Solver.m_velocity_gf solver),
                             Solver.GetTrueDofs M (Solver.m_displacement_gf solver))
                            (Solver.m_time solver) dt))))
      /\ forall i, Solver.m_deformed_nodes solver' i = Solver.m_displacement_gf solver' i).
Proof.
  destruct solver as [method vgf vtrue dgf dtrue ref def nodes nat ess time cycle].
  cbv zeta. unfold Solver.AdvanceTimestep.
  destruct method; cbn [Solver.is_QuasiStatic Solver.m_timestepper
                        Solver.set_velocity_true_vec Solver.set_displacement_true_vec
                        Solver.set_mesh_nodes].
  1: { rewrite QuasiStaticSolve_iterate. cbn.
       repeat split; try reflexivity; try congruence.
       intros i. unfold Solver.Vector_Add, Solver.Vector_Set. ring. }
  all: cbn;
    match goal with
    | |- context [Solver.ODE_Step ?M' ?n ?b ?t ?d] =>
        destruct (Solver.ODE_Step M' n b t d) as [[block time'] dt']
    end;
    cbn; repeat split; try reflexivity; try congruence;
    intros i; unfold Solver.Vector_Set; ring.
Qed.

Lemma AdvanceTimestep_deformed_nodes_witness :
  Solver.m_deformed_nodes
    (fst (Solver.AdvanceTimestep (Scenario.serial true)
            (Scenario.fresh Solver.QuasiStatic 10) 1)) 0%nat
  = Solver.m_reference_nodes (Scenario.fresh Solver.QuasiStatic 10) 0%nat
    + Solver.m_displacement_gf
        (fst (Solver.AdvanceTimestep (Scenario.serial true)
                (Scenario.fresh Solver.QuasiStatic 10) 1)) 0%nat.
Proof.
  exact (proj2 (proj1 (proj2 (proj2 (AdvanceTimestep_deformed_nodes (Scenario.serial true)
                                       (Scenario.fresh Solver.QuasiStatic 10) 1)))
                  eq_refl) 0%nat).
Defined.

(** C5 as stated fails in the dynamic regime: the first step of a solver
    whose deformed nodes are at 10 and whose displacement goes from 0 to 2
    leaves the deformed nodes at 2, and so does the same step from deformed
    nodes at 5: the deformed nodes of before the step are not read. *)
Lemma dynamic_deformed_nodes_not_accumulated :
  Solver.m_deformed_nodes (Scenario.fresh Solver.BackwardEuler 10) 0%nat = 10
  /\ Solver.m_displacement_gf (Scenario.fresh Solver.BackwardEuler 10) 0%nat = 0
  /\ Solver.m_displacement_gf
       (fst (Solver.AdvanceTimestep (Scenario.serial true)
               (Scenario.fresh Solver.BackwardEuler 10) 1)) 0%nat = 2
  /\ Solver.m_deformed_nodes
       (fst (Solver.AdvanceTimestep (Scenario.serial true)
               (Scenario.fresh Solver.BackwardEuler 10) 1)) 0%nat = 2
  /\ Solver.m_deformed_nodes
       (fst (Solver.AdvanceTimestep (Scenario.serial true)
               (Scenario.fresh Solver.BackwardEuler 5) 1)) 0%nat = 2.
Proof.
  repeat split; try reflexivity; cbn; unfold Solver.Vector_Set; lra.
Qed.

(* ------------------------------------------------------------------ *)
(** ** The Jacobian of the dynamic thermal residual *)

Section Jacobian.

Import ThermalConduction.

Variable srv : Services.

Lemma GetGradient_same_dt (this : ThermalConductionFunctional) (du_dt : Solver.Vector) :
  dt_ this = previous_dt_ this ->
  GetGradient srv this du_dt = (this, J_ this).
Proof.
  intros Hsame. unfold GetGradient.
  destruct (Req_dec_T (dt_ this) (previous_dt_ this)) as [_ | Hdiff];
    [reflexivity | contradiction].
Qed.

Lemma GetGradient_new_dt (this : ThermalConductionFunctional) (du_dt : Solver.Vector) :
  dt_ this <> previous_dt_ this ->
  let J := Add 1 (assemble_M srv (u_ this)) (dt_ this)
               (assemble_K srv (add 1 (u_ this) (dt_ this) du_dt)) in
  GetGradient srv this du_dt
  = (set_J this (Some J) (S (mass_assemblies this)) (S (stiffness_assemblies this)),
     Some J).
Proof.
  intros Hdiff. unfold GetGradient.
  destruct (Req_dec_T (dt_ this) (previous_dt_ this)) as [Hsame | _];
    [contradiction | reflexivity].
Qed.

Lemma GetGradient_keeps_dt (this : ThermalConductionFunctional) (du_dt : Solver.Vector) :
  dt_ (fst (GetGradient srv this du_dt)) = dt_ this
  /\ previous_dt_ (fst (GetGradient srv this du_dt)) = previous_dt_ this.
Proof.
  unfold GetGradient.
  destruct (Req_dec_T (dt_ this) (previous_dt_ this)); split; reflexivity.
Qed.

Lemma GetGradients_same_dt (trials : list Solver.Vector)
  (this : ThermalConductionFunctional) :
  dt_ this = previous_dt_ this -> GetGradients srv this trials = this.
Proof.
  intros Hsame. induction trials as [|du_dt trials IH]; cbn [GetGradients].
  - reflexivity.
  - rewrite GetGradient_same_dt by exact Hsame. exact IH.
Qed.

Lemma GetGradients_new_dt (trials : list Solver.Vector)
  (this : ThermalConductionFunctional) :
  dt_ this <> previous_dt_ this ->
  mass_assemblies (GetGradients srv this trials)
  = (mass_assemblies this + List.length trials)%nat
  /\ stiffness_assemblies (GetGradients srv this trials)
     = (stiffness_assemblies this + List.length trials)%nat.
Proof.
  revert this.
  induction trials as [|du_dt trials IH]; intros this Hdiff;
    cbn [GetGradients List.length].
  - split; lia.
  - destruct (GetGradient_keeps_dt this du_dt) as [Hdt Hprevious].
    destruct (IH (fst (GetGradient srv this du_dt))) as [Hmass Hstiffness].
    + rewrite Hdt, Hprevious. exact Hdiff.
    + rewrite Hmass, Hstiffness.
      rewrite (GetGradient_new_dt this du_dt Hdiff). cbn. split; lia.
Qed.

(** After construction [dt_] is 0 and [previous_dt_] is -1, so the first
    request assembles, whatever the regime and the vectors. *)
Lemma first_request_assembles (quasistatic : bool) (temperature u du_dt : Solver.Vector) :
  mass_assemblies (fst (GetGradient srv (constructed quasistatic temperature u) du_dt))
  = 1%nat
  /\ J_ (fst (GetGradient srv (constructed quasistatic temperature u) du_dt)) <> None.
Proof.
  rewrite GetGradient_new_dt by (cbn; lra). cbn. split; [reflexivity | discriminate].
Qed.

End Jacobian.

(** C3, as amended: the Jacobian callback of the dynamic regime assembles on
    exactly those requests at which [dt_] differs from [previous_dt_], the
    step size kept from the step before, which the callback reads and never
    writes.  At [dt_ = previous_dt_] a request, two requests in a row and any
    number of them assemble neither the mass nor the stiffness matrix and
    return the stored Jacobian.  At [dt_ <> previous_dt_] the next request
    assembles each of the two once and stores their combination, and so does
    every further request for as long as [previous_dt_] stays as it is. *)
Theorem Jacobian_reassembled_while_dt_differs (srv : ThermalConduction.Services)
  (this : ThermalConduction.ThermalConductionFunctional)
  (du_dt du_dt' : Solver.Vector) :
  let next := fst (ThermalConduction.GetGradient srv this du_dt) in
  (ThermalConduction.dt_ next = ThermalConduction.dt_ this
   /\ ThermalConduction.previous_dt_ next = ThermalConduction.previous_dt_ this)
  /\ (ThermalConduction.dt_ this = ThermalConduction.previous_dt_ this ->
      fst (ThermalConduction.GetGradient srv next du_dt') = this
      /\ snd (ThermalConduction.GetGradient srv this du_dt) = ThermalConduction.J_ this
      /\ snd (ThermalConduction.GetGradient srv next du_dt') = ThermalConduction.J_ this
      /\ forall trials, ThermalConduction.GetGradients srv this trials = this)
  /\ (ThermalConduction.dt_ this <> ThermalConduction.previous_dt_ this ->
      ThermalConduction.mass_assemblies next = S (ThermalConduction.mass_assemblies this)
      /\ ThermalConduction.stiffness_assemblies next
         = S (ThermalConduction.stiffness_assemblies this)
      /\ ThermalConduction.J_ next
         = Some (ThermalConduction.Add 1
                   (ThermalConduction.assemble_M srv (ThermalConduction.u_ this))
                   (ThermalConduction.dt_ this)
                   (ThermalConduction.assemble_K srv
                      (ThermalConduction.add 1 (ThermalConduction.u_ this)
                         (ThermalConduction.dt_ this) du_dt)))
      /\ snd (ThermalConduction.GetGradient srv this du_dt) = ThermalConduction.J_ next
      /\ forall trials,
           ThermalConduction.mass_assemblies
             (ThermalConduction.GetGradients srv this trials)
           = (ThermalConduction.mass_assemblies this + List.length trials)%nat
           /\ ThermalConduction.stiffness_assemblies
                (ThermalConduction.GetGradients srv this trials)
              = (ThermalConduction.stiffness_assemblies this + List.length trials)%nat)
  /\ (ThermalConduction.mass_assemblies next = ThermalConduction.mass_assemblies this
      /\ ThermalConduction.stiffness_assemblies next
         = ThermalConduction.stiffness_assemblies this
      <-> ThermalConduction.dt_ this = ThermalConduction.previous_dt_ this).
Proof.
  cbv zeta. split; [| split; [| split]].
  - apply GetGradient_keeps_dt.
  - intros Hsame. rewrite (GetGradient_same_dt srv this du_dt Hsame). cbn [fst snd].
    rewrite (GetGradient_same_dt srv this du_dt' Hsame). cbn [fst snd].
    repeat split. intros trials. apply GetGradients_same_dt. exact Hsame.
  - intros Hdiff. rewrite (GetGradient_new_dt srv this du_dt Hdiff).
    cbn [fst snd ThermalConduction.mass_assemblies ThermalConduction.stiffness_assemblies
         ThermalConduction.J_ ThermalConduction.set_J].
    repeat split; try reflexivity; apply GetGradients_new_dt; exact Hdiff.
  - destruct (Req_dec_T (ThermalConduction.dt_ this) (ThermalConduction.previous_dt_ this))
      as [Hsame | Hdiff].
    + rewrite GetGradient_same_dt by exact Hsame. cbn [fst]. tauto.
    + rewrite (GetGradient_new_dt srv this du_dt Hdiff). cbn. split.
      * intros [Hm _]. lia.
      * intros Hsame. contradiction.
Qed.

Lemma Jacobian_reassembled_while_dt_differs_witness :
  fst (ThermalConduction.GetGradient (Scenario.thermal true)
         (fst (ThermalConduction.GetGradient (Scenario.thermal true)
                 (Scenario.stepping (1 / 2) (1 / 2)) (fun _ => 0)))
         (fun _ => 1))
  = Scenario.stepping (1 / 2) (1 / 2)
  /\ ThermalConduction.mass_assemblies
       (fst (ThermalConduction.GetGradient (Scenario.thermal true)
               (Scenario.stepping (1 / 4) (1 / 2)) (fun _ => 0))) = 4%nat.
Proof.
  split.
  - refine (proj1 (proj1 (proj2 (Jacobian_reassembled_while_dt_differs
                                   (Scenario.thermal true)
                                   (Scenario.stepping (1 / 2) (1 / 2))
                                   (fun _ => 0) (fun _ => 1)))
                     _)).
    reflexivity.
  - refine (proj1 (proj1 (proj2 (proj2 (Jacobian_reassembled_while_dt_differs
                                          (Scenario.thermal true)
                                          (Scenario.stepping (1 / 4) (1 / 2))
                                          (fun _ => 0) (fun _ => 1))))
                     _)).
    cbn. lra.
Defined.

(** C3 as stated fails: after a step of size 1/2 the step size is 1/4.  The
    first Jacobian request assembles the mass and the stiffness matrix, for
    the fourth time each; the second request, at the step size of the first
    one, assembles them again, for the fifth time. *)
Lemma Jacobian_reassembled_twice_at_one_dt :
  let first := fst (ThermalConduction.GetGradient (Scenario.thermal true)
                      (Scenario.stepping (1 / 4) (1 / 2)) (fun _ => 0)) in
  let second := fst (ThermalConduction.GetGradient (Scenario.thermal true)
                       first (fun _ => 1)) in
  ThermalConduction.dt_ first = 1 / 4
  /\ ThermalConduction.dt_ second = 1 / 4
  /\ ThermalConduction.mass_assemblies (Scenario.stepping (1 / 4) (1 / 2)) = 3%nat
  /\ ThermalConduction.mass_assemblies first = 4%nat
  /\ ThermalConduction.mass_assemblies second = 5%nat
  /\ ThermalConduction.stiffness_assemblies first = 4%nat
  /\ ThermalConduction.stiffness_assemblies second = 5%nat.
Proof.
  cbv zeta.
  assert (Hdiff : ThermalConduction.dt_ (Scenario.stepping (1 / 4) (1 / 2))
                  <> ThermalConduction.previous_dt_ (Scenario.stepping (1 / 4) (1 / 2)))
    by (cbn; lra).
  rewrite (GetGradient_new_dt _ _ (fun _ => 0) Hdiff). cbn [fst].
  match goal with
  | |- context [ThermalConduction.GetGradient _ ?t (fun _ => 1)] =>
      assert (Hdiff' : ThermalConduction.dt_ t <> ThermalConduction.previous_dt_ t)
        by (cbn; lra);
      rewrite (GetGradient_new_dt _ t (fun _ => 1) Hdiff')
  end.
  cbn. repeat split; reflexivity.
Qed.

(* ================================================================== *)
(** * Further properties of the material models *)

Lemma sum_upto_plus (n : nat) (f g : nat -> double) :
  sum_upto n (fun k => f k + g k) = sum_upto n f + sum_upto n g.
Proof.
  induction n as [|n IH]; simpl.
  - ring.
  - rewrite IH. ring.
Qed.

(** A sum against a row of the unit tensor picks one term. *)
Lemma sum_upto_Identity_out (n i : nat) (f : nat -> double) :
  (n <= i)%nat -> sum_upto n (fun k => Identity i k * f k) = 0.
Proof.
  intros Hi. apply sum_upto_zero. intros k Hk. unfold Identity.
  destruct (Nat.eqb_spec i k); [lia | ring].
Qed.

Lemma sum_upto_Identity (n i : nat) (f : nat -> double) :
  (i < n)%nat -> sum_upto n (fun k => Identity i k * f k) = f i.
Proof.
  induction n as [|n IH]; intros Hi; [lia |].
  cbn [sum_upto]. destruct (Nat.eq_dec i n) as [-> | Hne].
  - rewrite sum_upto_Identity_out by lia. unfold Identity.
    rewrite Nat.eqb_refl. ring.
  - rewrite IH by lia. unfold Identity.
    destruct (Nat.eqb_spec i n); [contradiction | ring].
Qed.

Lemma tr_sym (dim : nat) (A : tensor) : tr dim (sym A) = tr dim A.
Proof.
  unfold tr, sym. apply sum_upto_ext. intros k _. lra.
Qed.

(** The strain of [LinearIsotropic] is [sym du_dX]. *)
Lemma LinearIsotropic_stress_sym_part (dim : nat) (m : LinearIsotropic.material)
  (du_dX : tensor) (i j : nat) :
  LinearIsotropic.stress dim m du_dX i j
  = (LinearIsotropic.K m - 2 / 3 * LinearIsotropic.G m) * tr dim du_dX * Identity i j
    + 2 * LinearIsotropic.G m * sym du_dX i j.
Proof.
  unfold LinearIsotropic.stress. cbv zeta.
  change (tr dim (0.5 *: (transpose du_dX +t du_dX)))
    with (tr dim (fun i j => 0.5 * (du_dX j i + du_dX i j))).
  rewrite (tr_ext dim _ (sym du_dX)) by (intros k _; unfold sym; lra).
  rewrite tr_sym.
  unfold tensor_add, tensor_scale, transpose, sym. lra.
Qed.

(** X2: [LinearIsotropic] reads the displacement gradient through its
    symmetric part only: the transposed gradient gives the same stress, the
    symmetric part of the gradient gives the same stress, and a
    skew-symmetric gradient, an infinitesimal rotation, gives no stress. *)
Theorem LinearIsotropic_ignores_rotation (dim : nat) (m : LinearIsotropic.material)
  (du_dX : tensor) :
  (forall i j, LinearIsotropic.stress dim m du_dX i j
               = LinearIsotropic.stress dim m (transpose du_dX) i j)
  /\ (forall i j, LinearIsotropic.stress dim m du_dX i j
                  = LinearIsotropic.stress dim m (sym du_dX) i j)
  /\ ((forall i j, (i < dim)%nat -> (j < dim)%nat -> du_dX i j = - du_dX j i) ->
      forall i j, (i < dim)%nat -> (j < dim)%nat ->
        LinearIsotropic.stress dim m du_dX i j = 0).
Proof.
  split; [| split].
  - intros i j. rewrite !LinearIsotropic_stress_sym_part.
    rewrite (tr_ext dim (transpose du_dX) du_dX) by reflexivity.
    unfold sym, transpose. lra.
  - intros i j. rewrite !LinearIsotropic_stress_sym_part.
    rewrite tr_sym. unfold sym. lra.
  - intros Hskew i j Hi Hj. rewrite LinearIsotropic_stress_sym_part.
    assert (Htr : tr dim du_dX = 0).
    { unfold tr. apply sum_upto_zero. intros k Hk.
      pose proof (Hskew k k Hk Hk). lra. }
    rewrite Htr. unfold sym. rewrite (Hskew i j Hi Hj). lra.
Qed.

Lemma LinearIsotropic_ignores_rotation_witness :
  LinearIsotropic.stress 2
    {| LinearIsotropic.density := 1; LinearIsotropic.K := 10; LinearIsotropic.G := 1 |}
    MoreExamples.spin 0%nat 1%nat = 0.
Proof.
  apply (proj2 (proj2 (LinearIsotropic_ignores_rotation 2
                         {| LinearIsotropic.density := 1; LinearIsotropic.K := 10;
                            LinearIsotropic.G := 1 |} MoreExamples.spin))).
  - intros i j Hi Hj.
    assert (Hi2 : i = 0%nat \/ i = 1%nat) by lia.
    assert (Hj2 : j = 0%nat \/ j = 1%nat) by lia.
    destruct Hi2 as [-> | ->]; destruct Hj2 as [-> | ->]; cbn; lra.
  - lia.
  - lia.
Defined.

(** The left Cauchy-Green tensor less the unit tensor, as [NeoHookean]
    writes it in terms of the displacement gradient. *)
Lemma NeoHookean_B_minus_I (dim : nat) (du_dX : tensor) (i j : nat) :
  (i < dim)%nat -> (j < dim)%nat ->
  (dot dim du_dX (transpose du_dX) +t transpose du_dX +t du_dX) i j
  = dot dim (Identity +t du_dX) (transpose (Identity +t du_dX)) i j - Identity i j.
Proof.
  intros Hi Hj. unfold dot, tensor_add, transpose.
  rewrite (sum_upto_ext dim
             (fun k => (Identity i k + du_dX i k) * (Identity j k + du_dX j k))
             (fun k => Identity i k * Identity j k
                       + (Identity i k * du_dX j k
                          + (Identity j k * du_dX i k + du_dX i k * du_dX j k))))
    by (intros k _; ring).
  rewrite !sum_upto_plus.
  rewrite (sum_upto_Identity dim i (fun k => Identity j k)) by assumption.
  rewrite (sum_upto_Identity dim i (fun k => du_dX j k)) by assumption.
  rewrite (sum_upto_Identity dim j (fun k => du_dX i k)) by assumption.
  unfold Identity. rewrite (Nat.eqb_sym j i). ring.
Qed.

(** X4: [NeoHookean] gives no stress under a rigid rotation: when the
    deformation gradient [F = I + du_dX] has [F F^T = I] and [det F = 1],
    every entry of the stress is zero. *)
Theorem NeoHookean_rigid_rotation (dim : nat) (m : NeoHookean.material)
  (du_dX : tensor) :
  let F := Identity +t du_dX in
  (forall i j, (i < dim)%nat -> (j < dim)%nat ->
     dot dim F (transpose F) i j = Identity i j) ->
  det dim F = 1 ->
  forall i j, (i < dim)%nat -> (j < dim)%nat -> NeoHookean.stress dim m du_dX i j = 0.
Proof.
  intros F Hrot Hdet i j Hi Hj. unfold NeoHookean.stress. cbv zeta.
  fold F. rewrite Hdet, ln_1.
  unfold tensor_add at 1. unfold tensor_scale at 1 2.
  rewrite (NeoHookean_B_minus_I dim du_dX i j Hi Hj). fold F.
  rewrite (Hrot i j Hi Hj). ring.
Qed.

Lemma NeoHookean_rigid_rotation_witness :
  NeoHookean.stress 2
    {| NeoHookean.density := 1; NeoHookean.K := 10; NeoHookean.G := 1 |}
    MoreExamples.quarter_turn 0%nat 1%nat = 0.
Proof.
  apply (NeoHookean_rigid_rotation 2
           {| NeoHookean.density := 1; NeoHookean.K := 10; NeoHookean.G := 1 |}
           MoreExamples.quarter_turn).
  - intros i j Hi Hj.
    assert (Hi2 : i = 0%nat \/ i = 1%nat) by lia.
    assert (Hj2 : j = 0%nat \/ j = 1%nat) by lia.
    destruct Hi2 as [-> | ->]; destruct Hj2 as [-> | ->];
      unfold dot, transpose, tensor_add, Identity, MoreExamples.quarter_turn;
      cbn [sum_upto Nat.eqb]; lra.
  - unfold det, tensor_add, Identity, MoreExamples.quarter_turn. cbn [Nat.eqb]. lra.
  - lia.
  - lia.
Defined.

(* J2 *)

(** X6: on a displacement gradient in the plane the two stateless
    models compute in plane strain: the stress for [dim = 2] is the in-plane
    part of the stress for [dim = 3] at the same gradient, whose entries out
    of the plane are zero. *)
Theorem plane_strain_in_two_dimensions (du_dX : tensor) :
  (forall i j, (2 <= i)%nat \/ (2 <= j)%nat -> du_dX i j = 0) ->
  forall i j, (i < 2)%nat -> (j < 2)%nat ->
    (forall m, LinearIsotropic.stress 2 m du_dX i j = LinearIsotropic.stress 3 m du_dX i j)
    /\ (forall m, NeoHookean.stress 2 m du_dX i j = NeoHookean.stress 3 m du_dX i j).
Proof.
  intros Hplane i j Hi Hj.
  assert (H02 : du_dX 0%nat 2%nat = 0) by (apply Hplane; lia).
  assert (H12 : du_dX 1%nat 2%nat = 0) by (apply Hplane; lia).
  assert (H20 : du_dX 2%nat 0%nat = 0) by (apply Hplane; lia).
  assert (H21 : du_dX 2%nat 1%nat = 0) by (apply Hplane; lia).
  assert (H22 : du_dX 2%nat 2%nat = 0) by (apply Hplane; lia).
  split; intros m.
  - rewrite !LinearIsotropic_stress_sym_part.
    replace (tr 3 du_dX) with (tr 2 du_dX)
      by (unfold tr; cbn [sum_upto]; rewrite H22; ring).
    reflexivity.
  - unfold NeoHookean.stress. cbv zeta.
    assert (Hdet : det 3 (Identity +t du_dX) = det 2 (Identity +t du_dX)).
    { unfold det, tensor_add, Identity. cbn [Nat.eqb].
      rewrite H02, H12, H20, H21, H22. ring. }
    assert (Hdot : dot 3 du_dX (transpose du_dX) i j = dot 2 du_dX (transpose du_dX) i j).
    { unfold dot, transpose. cbn [sum_upto].
      rewrite (Hplane i 2%nat) by lia. ring. }
    rewrite Hdet. unfold tensor_add, tensor_scale. rewrite Hdot. reflexivity.
Qed.

Lemma plane_strain_in_two_dimensions_witness :
  NeoHookean.stress 2
    {| NeoHookean.density := 1; NeoHookean.K := 10; NeoHookean.G := 1 |}
    MoreExamples.spin 0%nat 1%nat
  = NeoHookean.stress 3
      {| NeoHookean.density := 1; NeoHookean.K := 10; NeoHookean.G := 1 |}
      MoreExamples.spin 0%nat 1%nat.
Proof.
  refine (proj2 (plane_strain_in_two_dimensions MoreExamples.spin _ 0%nat 1%nat _ _) _).
  - intros i j Hij. unfold MoreExamples.spin.
    destruct i as [|[|i]]; destruct j as [|[|j]]; try reflexivity; lia.
  - lia.
  - lia.
Defined.

(** X9: the accumulated plastic strain never goes down: with
    [3 G + Hk + Hi > 0] an evaluation of [J2] leaves it at least as large
    as it was, and an elastic evaluation leaves it as it was. *)
Theorem J2_accumulated_plastic_strain_grows (m : J2.material) (state : J2.State)
  (du_dX : tensor) :
  0 < 3 * J2.shear m + J2.Hk m + J2.Hi m ->
  let after := snd (J2.stress m state du_dX) in
  J2.accumulated_plastic_strain state <= J2.accumulated_plastic_strain after
  /\ (J2.phi m state du_dX <= 0 ->
      J2.accumulated_plastic_strain after = J2.accumulated_plastic_strain state).
Proof.
  intros HD after. subst after.
  destruct (Rlt_dec 0 (J2.phi m state du_dX)) as [Hyield | Hno].
  - rewrite J2_stress_plastic by exact Hyield. cbn [snd].
    unfold J2.returned_state. cbn [J2.accumulated_plastic_strain].
    assert (Hinc : 0 < J2.plastic_strain_inc m state du_dX).
    { unfold J2.plastic_strain_inc. apply Rmult_lt_0_compat; [exact Hyield |].
      apply Rinv_0_lt_compat. exact HD. }
    split; [lra | intros Hle; lra].
  - rewrite J2_stress_elastic by exact Hno. cbn [snd].
    split; [lra | reflexivity].
Qed.

Lemma J2_accumulated_plastic_strain_grows_witness :
  J2.accumulated_plastic_strain J2.zero_state
  <= J2.accumulated_plastic_strain
       (snd (J2.stress Examples.steel J2.zero_state (Examples.diag (9 / 2) 0 0))).
Proof.
  refine (proj1 (J2_accumulated_plastic_strain_grows Examples.steel J2.zero_state
                   (Examples.diag (9 / 2) 0 0) _)).
  unfold J2.shear. cbn. lra.
Defined.

(* ================================================================== *)
(** * Further properties of [CompleteSetup] *)

Section MoreSetup.

Import Solver.
Import SolverRun.

Variable M : Mfem.

Lemma insert_sorted_ascending (x : Z) (l : list Z) :
  StronglySorted Z.le l -> StronglySorted Z.le (insert_sorted x l).
Proof.
  induction l as [|y l IH]; intros Hl; simpl.
  - constructor; constructor.
  - destruct (Z.leb_spec x y) as [Hxy | Hxy].
    + constructor; [exact Hl |].
      constructor; [exact Hxy |].
      apply StronglySorted_inv in Hl as [_ Hy].
      eapply Forall_impl; [| exact Hy]. intros z Hz. cbv beta in *. lia.
    + apply StronglySorted_inv in Hl as [Hl Hy].
      constructor; [apply IH; exact Hl |].
      rewrite Forall_forall in *. intros z Hz.
      apply In_insert_sorted in Hz as [-> | Hz]; [lia | apply Hy; exact Hz].
Qed.

Lemma Sort_ascending (l : list Z) : StronglySorted Z.le (Sort l).
Proof.
  induction l as [|x l IH]; simpl.
  - constructor.
  - apply insert_sorted_ascending. exact IH.
Qed.

Lemma Unique_strictly_ascending (l : list Z) :
  StronglySorted Z.le l -> StronglySorted Z.lt (Unique l).
Proof.
  induction l as [|x l IH]; intros Hl.
  - constructor.
  - apply StronglySorted_inv in Hl as [Hl Hx].
    destruct l as [|y l'].
    + constructor; constructor.
    + change (Unique (x :: y :: l'))
        with (if (x =? y)%Z then Unique (y :: l') else x :: Unique (y :: l')).
      destruct (Z.eqb_spec x y) as [-> | Hne].
      * apply IH. exact Hl.
      * constructor; [apply IH; exact Hl |].
        rewrite Forall_forall in *. intros z Hz. rewrite In_Unique in Hz.
        pose proof (Hx y (or_introl eq_refl)) as Hxy.
        apply StronglySorted_inv in Hl as [_ Hy]. rewrite Forall_forall in Hy.
        cbn [In] in Hz. destruct Hz as [<- | Hz]; [lia |].
        pose proof (Hy z Hz). lia.
Qed.

(** An essential condition whose coefficient is of the wrong kind: the
    warnings of its true dofs are logged, then the error. *)
Lemma project_essential_misfit (bc : BoundaryCondition) (gf : Vector)
  (essential_dofs : list Z) (log : list Message) :
  coefficient_fits bc = false ->
  project_essential M (gf, essential_dofs) bc log
  = (None, log ++ warnings M bc (true_dofs bc) ++ [Error (misfit_message bc)]).
Proof.
  intros Hfits. unfold project_essential, coefficient_fits, misfit_message in *.
  unfold bind at 1. rewrite transform_scalar_dof.
  destruct (component bc =? -1)%Z; destruct (coef bc) as [c | c]; try discriminate;
    cbn; rewrite <- app_assoc; reflexivity.
Qed.

(** The loop over the essential conditions, whatever their coefficients. *)
Lemma for_each_project_essential_any (bcs : list BoundaryCondition) (gf : Vector)
  (essential_dofs : list Z) (log : list Message) :
  (forallb coefficient_fits bcs = true
   /\ exists gf',
        for_each (project_essential M) bcs (gf, essential_dofs) log
        = (Some (gf', essential_dofs ++ flat_map true_dofs bcs),
           log ++ flat_map (fun bc => warnings M bc (true_dofs bc)) bcs))
  \/ (forallb coefficient_fits bcs = false
      /\ exists before bc,
           In bc bcs
           /\ Forall (fun msg => is_error msg = false) before
           /\ for_each (project_essential M) bcs (gf, essential_dofs) log
              = (None, log ++ before ++ [Error (misfit_message bc)])).
Proof.
  destruct (forallb coefficient_fits bcs) eqn:Hfit.
  - left. split; [reflexivity |]. apply for_each_project_essential. exact Hfit.
  - right. split; [reflexivity |].
    revert gf essential_dofs log.
    induction bcs as [|bc bcs IH]; intros gf essential_dofs log; [discriminate |].
    cbn [forallb] in Hfit. cbn [for_each]. unfold bind.
    destruct (coefficient_fits bc) eqn:Hbc.
    + cbn [andb] in Hfit.
      destruct (project_essential_fits M bc gf essential_dofs log Hbc) as [gf1 H1].
      rewrite H1. cbv beta iota.
      destruct (IH Hfit gf1 (essential_dofs ++ true_dofs bc)
                  (log ++ warnings M bc (true_dofs bc)))
        as (before & bad & Hin & Hbefore & Hrun).
      exists (warnings M bc (true_dofs bc) ++ before), bad.
      split; [right; exact Hin | split].
      * apply Forall_app. split; [| exact Hbefore].
        rewrite Forall_forall. intros msg Hmsg.
        rewrite (warnings_all_warnings M bc _ msg Hmsg). reflexivity.
      * rewrite Hrun. rewrite <- !app_assoc. reflexivity.
    + rewrite (project_essential_misfit bc gf essential_dofs log Hbc).
      exists (warnings M bc (true_dofs bc)), bc.
      split; [left; reflexivity | split; [| reflexivity]].
      rewrite Forall_forall. intros msg Hmsg.
      rewrite (warnings_all_warnings M bc _ msg Hmsg). reflexivity.
Qed.

(** The loop over the natural conditions, whatever their coefficients. *)
Lemma for_each_add_traction_any (bcs : list BoundaryCondition)
  (integrators : list (VectorCoefficient * list Z)) (log : list Message) :
  (forallb (fun bc => holds_vector (coef bc)) bcs = true
   /\ exists added,
        for_each add_traction bcs integrators log = (Some (integrators ++ added), log)
        /\ map snd added = map markers bcs
        /\ map (fun i => vector_coef (fst i)) added = map coef bcs)
  \/ (forallb (fun bc => holds_vector (coef bc)) bcs = false
      /\ for_each add_traction bcs integrators log
         = (None, log ++ [Error traction_not_vector])).
Proof.
  revert integrators.
  induction bcs as [|bc bcs IH]; intros integrators.
  - left. split; [reflexivity |]. exists []. rewrite app_nil_r. repeat split.
  - assert (Hstep : for_each add_traction (bc :: bcs) integrators log
                    = match coef bc with
                      | scalar_coef _ => (None, log ++ [Error traction_not_vector])
                      | vector_coef c =>
                          for_each add_traction bcs (integrators ++ [(c, markers bc)]) log
                      end).
    { cbn [for_each]. unfold bind at 1. unfold add_traction.
      destruct (coef bc); reflexivity. }
    rewrite Hstep. cbn [forallb map].
    destruct (coef bc) as [c | c] eqn:Hc; cbn [holds_vector andb].
    + right. split; reflexivity.
    + destruct (IH (integrators ++ [(c, markers bc)])) as [[Hall (added & Hrun & Hm & Hcoef)] | [Hbad Hrun]].
      * left. split; [exact Hall |]. exists ((c, markers bc) :: added).
        rewrite Hrun. rewrite <- app_assoc. cbn. rewrite Hm, Hcoef. repeat split.
      * right. split; [exact Hbad | exact Hrun].
Qed.

(** Every run of [CompleteSetup]: to its end, or to the first coefficient
    of the wrong kind. *)
Lemma CompleteSetup_any (solver : NonlinearSolidSolver) (log : list Message) :
  (forallb (fun bc => holds_vector (coef bc)) (m_nat_bdr solver) = true
   /\ forallb coefficient_fits (m_ess_bdr solver) = true
   /\ exists gf integrators,
        CompleteSetup M solver log
        = (Some (set_displacement_gf solver gf,
                 {| bdr_face_integrators := integrators;
                    ess_tdof_list := Unique (Sort (flat_map true_dofs (m_ess_bdr solver))) |}),
           log ++ flat_map (fun bc => warnings M bc (true_dofs bc)) (m_ess_bdr solver))
        /\ map snd integrators = map markers (m_nat_bdr solver)
        /\ map (fun i => vector_coef (fst i)) integrators = map coef (m_nat_bdr solver)
        /\ (m_ess_bdr solver = [] -> gf = m_displacement_gf solver))
  \/ (forallb (fun bc => holds_vector (coef bc)) (m_nat_bdr solver) = false
      /\ CompleteSetup M solver log = (None, log ++ [Error traction_not_vector]))
  \/ (forallb (fun bc => holds_vector (coef bc)) (m_nat_bdr solver) = true
      /\ forallb coefficient_fits (m_ess_bdr solver) = false
      /\ exists before bc,
           In bc (m_ess_bdr solver)
           /\ Forall (fun msg => is_error msg = false) before
           /\ CompleteSetup M solver log
              = (None, log ++ before ++ [Error (misfit_message bc)])).
Proof.
  unfold CompleteSetup.
  destruct (for_each_add_traction_any (m_nat_bdr solver) [] log)
    as [[Hnat (added & Hrun & Hm & Hc)] | [Hnat Hrun]].
  - destruct (for_each_project_essential_any (m_ess_bdr solver)
                (m_displacement_gf solver) [] log)
      as [[Hess [gf Hgf]] | [Hess (before & bc & Hin & Hbefore & Hgf)]].
    + left. split; [exact Hnat | split; [exact Hess |]].
      exists gf, added. unfold bind. rewrite Hrun. cbv beta iota.
      rewrite Hgf. cbv beta iota. cbn [app]. unfold ret.
      repeat split; try assumption.
      intros Hnone. rewrite Hnone in Hgf. cbn in Hgf. unfold ret in Hgf.
      congruence.
    + right. right. split; [exact Hnat | split; [exact Hess |]].
      exists before, bc. unfold bind. rewrite Hrun. cbv beta iota.
      rewrite Hgf. repeat split; assumption.
  - right. left. split; [exact Hnat |].
    unfold bind. rewrite Hrun. reflexivity.
Qed.

Lemma warnings_count (bc : BoundaryCondition) (tdofs : list Z) :
  warnings M bc tdofs
  = repeat (Warning tdofs_do_not_match) (List.length (filter (mismatch M bc) tdofs)).
Proof.
  unfold warnings. induction tdofs as [|tdof tdofs IH]; [reflexivity |].
  cbn [flat_map filter]. destruct (mismatch M bc tdof); cbn; rewrite IH; reflexivity.
Qed.

Lemma warnings_of_conditions (bcs : list BoundaryCondition) :
  flat_map (fun bc => warnings M bc (true_dofs bc)) bcs
  = repeat (Warning tdofs_do_not_match) (mismatches M bcs).
Proof.
  unfold mismatches. induction bcs as [|bc bcs IH]; [reflexivity |].
  cbn [flat_map map].
  match goal with
  | |- context [list_sum (?a :: ?l)] => change (list_sum (a :: l)) with (a + list_sum l)%nat
  end.
  rewrite repeat_app, <- IH, <- warnings_count. reflexivity.
Qed.

Lemma mismatches_all_components (bcs : list BoundaryCondition) :
  (forall bc, In bc bcs -> component bc = (-1)%Z) -> mismatches M bcs = 0%nat.
Proof.
  unfold mismatches. induction bcs as [|bc bcs IH]; intros Hall; [reflexivity |].
  cbn [map].
  match goal with
  | |- context [list_sum (?a :: ?l)] => change (list_sum (a :: l)) with (a + list_sum l)%nat
  end.
  rewrite IH by (intros bc' Hin; apply Hall; right; exact Hin).
  assert (Hnone : filter (mismatch M bc) (true_dofs bc) = []).
  { induction (true_dofs bc) as [|tdof tdofs IHt]; [reflexivity |].
    cbn [filter]. unfold mismatch at 1.
    rewrite (Hall bc (or_introl eq_refl)). cbn. exact IHt. }
  rewrite Hnone. reflexivity.
Qed.

End MoreSetup.

(** X11: a set-up that runs to its end hands [SetEssentialTrueDofs] a
    strictly ascending list, so one without duplicates, that holds exactly
    the true dofs of the essential boundary conditions. *)
Theorem essential_dofs_ascending (M : Solver.Mfem) (solver : Solver.NonlinearSolidSolver)
  (log : list Message) (solver' : Solver.NonlinearSolidSolver)
  (form : Solver.ParNonlinearForm) (log' : list Message) :
  Solver.CompleteSetup M solver log = (Some (solver', form), log') ->
  StronglySorted Z.lt (Solver.ess_tdof_list form)
  /\ forall tdof,
       In tdof (Solver.ess_tdof_list form)
       <-> exists bc, In bc (Solver.m_ess_bdr solver) /\ In tdof (Solver.true_dofs bc).
Proof.
  intros Hrun.
  destruct (CompleteSetup_any M solver log)
    as [(_ & _ & gf & integrators & Hdone & _) | [[_ Hfail] | (_ & _ & before & bc & _ & _ & Hfail)]];
    try (rewrite Hfail in Hrun; discriminate).
  rewrite Hdone in Hrun. injection Hrun as _ <- _. cbn [Solver.ess_tdof_list].
  split.
  - apply Unique_strictly_ascending, Sort_ascending.
  - intros tdof. rewrite In_Unique, In_Sort, in_flat_map. reflexivity.
Qed.

Lemma essential_dofs_ascending_witness :
  exists solver' form log',
    Solver.CompleteSetup (Scenario.serial true) (MoreScenario.loaded Solver.QuasiStatic) []
    = (Some (solver', form), log')
    /\ Solver.ess_tdof_list form = [0%Z; 3%Z; 4%Z]
    /\ StronglySorted Z.lt (Solver.ess_tdof_list form).
Proof.
  eexists. eexists. eexists.
  assert (Hrun : Solver.CompleteSetup (Scenario.serial true)
                   (MoreScenario.loaded Solver.QuasiStatic) []
                 = (Some (_, _), _)) by reflexivity.
  split; [exact Hrun | split; [reflexivity |]].
  exact (proj1 (essential_dofs_ascending _ _ _ _ _ _ Hrun)).
Defined.

(** X12: [CompleteSetup] ends in an error exactly when a traction
    condition has a coefficient that is no vector or an essential condition a
    coefficient of the wrong kind for its component.  A wrong traction
    coefficient ends the run with its error message and nothing else logged,
    before any essential condition is looked at; in every failed run the
    messages logged are warnings followed by one error. *)
Theorem CompleteSetup_aborts_on_wrong_coefficient (M : Solver.Mfem)
  (solver : Solver.NonlinearSolidSolver) (log : list Message) :
  (fst (Solver.CompleteSetup M solver log) = None
   <-> forallb (fun bc => Solver.holds_vector (Solver.coef bc)) (Solver.m_nat_bdr solver)
       = false
       \/ forallb Solver.coefficient_fits (Solver.m_ess_bdr solver) = false)
  /\ (forallb (fun bc => Solver.holds_vector (Solver.coef bc)) (Solver.m_nat_bdr solver)
      = false ->
      Solver.CompleteSetup M solver log
      = (None, log ++ [Error Solver.traction_not_vector]))
  /\ (fst (Solver.CompleteSetup M solver log) = None ->
      exists before text,
        snd (Solver.CompleteSetup M solver log) = log ++ before ++ [Error text]
        /\ Forall (fun msg => is_error msg = false) before).
Proof.
  destruct (CompleteSetup_any M solver log)
    as [(Hnat & Hess & gf & integrators & Hdone & _)
       | [[Hnat Hfail] | (Hnat & Hess & before & bc & _ & Hbefore & Hfail)]].
  - rewrite Hdone. cbn [fst snd]. split; [| split].
    + split; [discriminate | intros [H | H]; congruence].
    + congruence.
    + discriminate.
  - rewrite Hfail. cbn [fst snd]. split; [| split].
    + split; [intros _; left; exact Hnat | reflexivity].
    + reflexivity.
    + intros _. exists [], Solver.traction_not_vector. split; [reflexivity | constructor].
  - rewrite Hfail. cbn [fst snd]. split; [| split].
    + split; [intros _; right; exact Hess | reflexivity].
    + congruence.
    + intros _. exists before, (SolverRun.misfit_message bc). split; [reflexivity | exact Hbefore].
Qed.

(** The whole of [CompleteSetup], when it runs to its end: the part on the
    boundary conditions ran to its end, and the configuration of the solvers
    after it. *)
Lemma CompleteSetup_all_done (M : Solver.Mfem) (order Dimension : Z)
  (solver : Solver.NonlinearSolidSolver) (m_viscosity : option Solver.Coefficient)
  (m_lin_params : SolverSetup.LinearSolverParameters)
  (m_nonlin_params : SolverSetup.NonlinearSolverParameters) (log : list Message)
  (solver' : Solver.NonlinearSolidSolver) (form : Solver.ParNonlinearForm)
  (newton : SolverSetup.NewtonSolver) (log' : list Message) :
  SolverSetup.CompleteSetup_all M order Dimension solver m_viscosity
    m_lin_params m_nonlin_params log
  = (Some (solver', form, newton), log') ->
  exists log1,
    Solver.CompleteSetup M solver log = (Some (solver', form), log1)
    /\ log' = log1 ++ match SolverSetup.prec m_lin_params with
                      | SolverSetup.BoomerAMG =>
                          [Warning SolverSetup.boomeramg_with_nodal_ordering]
                      | _ => []
                      end.
Proof.
  intros Hrun.
  unfold SolverSetup.CompleteSetup_all in Hrun. unfold bind at 1 in Hrun.
  destruct (Solver.CompleteSetup M solver log) as [[[solver1 form1] |] log1];
    [| discriminate].
  exists log1.
  unfold SolverSetup.configure_solvers, SolverSetup.displacement_space in Hrun.
  unfold bind at 1 in Hrun. unfold bind at 1 in Hrun.
  destruct (Solver.m_timestepper solver), m_viscosity as [visc |];
    cbn in Hrun; try discriminate;
    destruct (SolverSetup.prec m_lin_params); cbn in Hrun;
    injection Hrun as <- <- _ <-; split; try reflexivity; symmetry; apply app_nil_r.
Qed.

(** X13: of the fields, the nodes, the boundary conditions, the time and
    the cycle that time stepping reads, a [CompleteSetup] that runs to its
    end changes the displacement grid function and nothing else (what it
    sets besides are the preconditioner, the linear solver and the Newton
    solver, see X17); it leaves the displacement as it was when there is no
    essential condition, and it adds one traction integrator for every
    natural condition, in their order, each with the coefficient and the
    markers of its condition. *)
Theorem CompleteSetup_keeps_the_fields (M : Solver.Mfem) (order Dimension : Z)
  (solver : Solver.NonlinearSolidSolver) (m_viscosity : option Solver.Coefficient)
  (m_lin_params : SolverSetup.LinearSolverParameters)
  (m_nonlin_params : SolverSetup.NonlinearSolverParameters) (log : list Message)
  (solver' : Solver.NonlinearSolidSolver) (form : Solver.ParNonlinearForm)
  (newton : SolverSetup.NewtonSolver) (log' : list Message) :
  SolverSetup.CompleteSetup_all M order Dimension solver m_viscosity
    m_lin_params m_nonlin_params log
  = (Some (solver', form, newton), log') ->
  solver' = Solver.set_displacement_gf solver (Solver.m_displacement_gf solver')
  /\ (Solver.m_ess_bdr solver = [] ->
      Solver.m_displacement_gf solver' = Solver.m_displacement_gf solver)
  /\ map snd (Solver.bdr_face_integrators form)
     = map Solver.markers (Solver.m_nat_bdr solver)
  /\ map (fun i => Solver.vector_coef (fst i)) (Solver.bdr_face_integrators form)
     = map Solver.coef (Solver.m_nat_bdr solver).
Proof.
  intros Hall.
  destruct (CompleteSetup_all_done _ _ _ _ _ _ _ _ _ _ _ _ Hall) as (log1 & Hrun & _).
  destruct (CompleteSetup_any M solver log)
    as [(_ & _ & gf & integrators & Hdone & Hm & Hc & Hgf)
       | [[_ Hfail] | (_ & _ & before & bc & _ & _ & Hfail)]];
    try (rewrite Hfail in Hrun; discriminate).
  rewrite Hdone in Hrun. injection Hrun as <- <- _.
  cbn [Solver.bdr_face_integrators]. repeat split; try assumption.
Qed.

Lemma CompleteSetup_keeps_the_fields_witness :
  exists solver' form newton log',
    SolverSetup.CompleteSetup_all (Scenario.serial true) 1 3
      (MoreScenario.loaded Solver.QuasiStatic) None
      {| SolverSetup.lin_rel_tol := 0; SolverSetup.lin_abs_tol := 0;
         SolverSetup.lin_print_level := 0; SolverSetup.lin_max_iter := 100;
         SolverSetup.prec := SolverSetup.BoomerAMG |}
      {| SolverSetup.rel_tol := 0; SolverSetup.abs_tol := 0;
         SolverSetup.max_iter := 10; SolverSetup.print_level := 0 |} []
    = (Some (solver', form, newton), log')
    /\ map snd (Solver.bdr_face_integrators form) = [[3%Z]].
Proof.
  eexists. eexists. eexists. eexists.
  match goal with
  | |- ?run = _ /\ _ => assert (Hrun : run = (Some (_, _, _), _)) by reflexivity
  end.
  split; [exact Hrun |].
  exact (proj1 (proj2 (proj2
           (CompleteSetup_keeps_the_fields _ _ _ _ _ _ _ _ _ _ _ _ Hrun)))).
Defined.

(** X14: what a [CompleteSetup] that runs to its end logs, from its first
    line to its last: one warning for every listed true dof that misses the
    component of its condition, then the warning about the ordering when the
    preconditioner is [BoomerAMG], and nothing else.  With conditions on all
    components only ([component = -1]) and another preconditioner it logs
    nothing. *)
Theorem CompleteSetup_warns_once_per_mismatch (M : Solver.Mfem) (order Dimension : Z)
  (solver : Solver.NonlinearSolidSolver) (m_viscosity : option Solver.Coefficient)
  (m_lin_params : SolverSetup.LinearSolverParameters)
  (m_nonlin_params : SolverSetup.NonlinearSolverParameters) (log : list Message)
  (solver' : Solver.NonlinearSolidSolver) (form : Solver.ParNonlinearForm)
  (newton : SolverSetup.NewtonSolver) (log' : list Message) :
  SolverSetup.CompleteSetup_all M order Dimension solver m_viscosity
    m_lin_params m_nonlin_params log
  = (Some (solver', form, newton), log') ->
  log' = log
         ++ repeat (Warning Solver.tdofs_do_not_match)
              (SolverRun.mismatches M (Solver.m_ess_bdr solver))
         ++ match SolverSetup.prec m_lin_params with
            | SolverSetup.BoomerAMG => [Warning SolverSetup.boomeramg_with_nodal_ordering]
            | _ => []
            end
  /\ ((forall bc, In bc (Solver.m_ess_bdr solver) -> Solver.component bc = (-1)%Z) ->
      SolverSetup.prec m_lin_params <> SolverSetup.BoomerAMG ->
      log' = log).
Proof.
  intros Hall.
  destruct (CompleteSetup_all_done _ _ _ _ _ _ _ _ _ _ _ _ Hall) as (log1 & Hrun & ->).
  destruct (CompleteSetup_any M solver log)
    as [(_ & _ & gf & integrators & Hdone & _)
       | [[_ Hfail] | (_ & _ & before & bc & _ & _ & Hfail)]];
    try (rewrite Hfail in Hrun; discriminate).
  rewrite Hdone in Hrun. injection Hrun as _ _ <-.
  rewrite warnings_of_conditions, <- app_assoc. split; [reflexivity |].
  intros Hcomponents Hprec. rewrite (mismatches_all_components M _ Hcomponents).
  cbn [repeat app].
  destruct (SolverSetup.prec m_lin_params); [contradiction Hprec; reflexivity |].
  apply app_nil_r.
Qed.

Lemma CompleteSetup_warns_once_per_mismatch_witness :
  exists solver' form newton log',
    SolverSetup.CompleteSetup_all (Scenario.serial true) 1 3
      (MoreScenario.loaded Solver.QuasiStatic) None
      {| SolverSetup.lin_rel_tol := 0; SolverSetup.lin_abs_tol := 0;
         SolverSetup.lin_print_level := 0; SolverSetup.lin_max_iter := 100;
         SolverSetup.prec := SolverSetup.Jacobi |}
      {| SolverSetup.rel_tol := 0; SolverSetup.abs_tol := 0;
         SolverSetup.max_iter := 10; SolverSetup.print_level := 0 |} []
    = (Some (solver', form, newton), log')
    /\ log' = [] ++ repeat (Warning Solver.tdofs_do_not_match) 1 ++ [].
Proof.
  eexists. eexists. eexists. eexists.
  match goal with
  | |- ?run = _ /\ _ => assert (Hrun : run = (Some (_, _, _), _)) by reflexivity
  end.
  split; [exact Hrun |].
  exact (proj1 (CompleteSetup_warns_once_per_mismatch _ _ _ _ _ _ _ _ _ _ _ _ Hrun)).
Defined.

(* ================================================================== *)
(** * Further properties of time stepping *)

Lemma AdvanceTimestep_frame (M : Solver.Mfem) (solver : Solver.NonlinearSolidSolver)
  (dt : double) :
  let after := Solver.AdvanceTimestep M solver dt in
  Solver.m_cycle (fst after) = (Solver.m_cycle solver + 1)%Z
  /\ Solver.m_reference_nodes (fst after) = Solver.m_reference_nodes solver
  /\ Solver.m_timestepper (fst after) = Solver.m_timestepper solver
  /\ Solver.m_nat_bdr (fst after) = Solver.m_nat_bdr solver
  /\ Solver.m_ess_bdr (fst after) = Solver.m_ess_bdr solver
  /\ (Solver.m_timestepper solver = Solver.QuasiStatic ->
      Solver.m_time (fst after) = Solver.m_time solver /\ snd after = dt).
Proof.
  destruct solver as [method vgf vtrue dgf dtrue ref def nodes nat ess time cycle].
  cbv zeta. unfold Solver.AdvanceTimestep.
  destruct method; cbn [Solver.is_QuasiStatic Solver.m_timestepper
                        Solver.set_velocity_true_vec Solver.set_displacement_true_vec
                        Solver.set_mesh_nodes].
  1: { rewrite QuasiStaticSolve_iterate. cbn. repeat split; reflexivity. }
  all: cbn;
    match goal with
    | |- context [Solver.ODE_Step ?M' ?n ?b ?t ?d] =>
        destruct (Solver.ODE_Step M' n b t d) as [[block time'] dt']
    end;
    cbn; repeat split; try reflexivity; try discriminate.
Qed.

(** X15: [n] calls of [AdvanceTimestep] raise the cycle counter by
    [n] and leave the reference nodes, the time-stepping method and the
    boundary conditions as they were; in the quasi-static regime they also
    leave the time [m_time] and the step size [dt] as they were: the
    quasi-static solver never advances its time. *)
Theorem AdvanceTimesteps_frame (M : Solver.Mfem) (n : nat)
  (solver : Solver.NonlinearSolidSolver) (dt : double) :
  let after := SolverRun.AdvanceTimesteps M n solver dt in
  Solver.m_cycle (fst after) = (Solver.m_cycle solver + Z.of_nat n)%Z
  /\ Solver.m_reference_nodes (fst after) = Solver.m_reference_nodes solver
  /\ Solver.m_timestepper (fst after) = Solver.m_timestepper solver
  /\ Solver.m_nat_bdr (fst after) = Solver.m_nat_bdr solver
  /\ Solver.m_ess_bdr (fst after) = Solver.m_ess_bdr solver
  /\ (Solver.m_timestepper solver = Solver.QuasiStatic ->
      Solver.m_time (fst after) = Solver.m_time solver /\ snd after = dt).
Proof.
  cbv zeta. revert solver dt.
  induction n as [|n IH]; intros solver dt.
  - cbn [SolverRun.AdvanceTimesteps fst snd]. repeat split; try reflexivity. lia.
  - cbn [SolverRun.AdvanceTimesteps].
    pose proof (AdvanceTimestep_frame M solver dt) as Hone. cbv zeta in Hone.
    destruct (Solver.AdvanceTimestep M solver dt) as [solver' dt'].
    cbn [fst snd] in Hone.
    destruct Hone as (Hc & Hr & Ht & Hn & He & Hq).
    destruct (IH solver' dt') as (Hc' & Hr' & Ht' & Hn' & He' & Hq').
    rewrite Hc', Hr', Ht', Hn', He', Hc, Hr, Ht, Hn, He.
    repeat split; try reflexivity; try lia.
    + destruct (Hq H) as [Htime _]. destruct Hq' as [Htime' _]; [congruence |].
      congruence.
    + destruct (Hq H) as [_ Hdt]. destruct Hq' as [_ Hdt']; [congruence |].
      congruence.
Qed.

(** X16: [AdvanceTimestep] starts from the grid functions: two solvers
    that agree on the method, the velocity and the displacement grid
    function, the reference nodes, the boundary conditions, the time and the
    cycle are left in the same state by a step, whatever their true-dof
    vectors, their deformed nodes and the nodes their mesh used. *)
Theorem AdvanceTimestep_restarts_from_grid_functions (M : Solver.Mfem)
  (solver other : Solver.NonlinearSolidSolver) (dt : double) :
  Solver.m_timestepper solver = Solver.m_timestepper other ->
  Solver.m_velocity_gf solver = Solver.m_velocity_gf other ->
  Solver.m_displacement_gf solver = Solver.m_displacement_gf other ->
  Solver.m_reference_nodes solver = Solver.m_reference_nodes other ->
  Solver.m_nat_bdr solver = Solver.m_nat_bdr other ->
  Solver.m_ess_bdr solver = Solver.m_ess_bdr other ->
  Solver.m_time solver = Solver.m_time other ->
  Solver.m_cycle solver = Solver.m_cycle other ->
  Solver.AdvanceTimestep M solver dt = Solver.AdvanceTimestep M other dt.
Proof.
  destruct solver as [method vgf vtrue dgf dtrue ref def nodes nat ess time cycle].
  destruct other as [method' vgf' vtrue' dgf' dtrue' ref' def' nodes' nat' ess' time' cycle'].
  cbn. intros <- <- <- <- <- <- <- <-.
  unfold Solver.AdvanceTimestep.
  destruct method; cbn [Solver.is_QuasiStatic Solver.m_timestepper
                        Solver.set_velocity_true_vec Solver.set_displacement_true_vec
                        Solver.set_mesh_nodes].
  1: { rewrite !QuasiStaticSolve_iterate. reflexivity. }
  all: cbn;
    match goal with
    | |- context [Solver.ODE_Step ?M' ?n ?b ?t ?d] =>
        destruct (Solver.ODE_Step M' n b t d) as [[block time'] dt']
    end;
    reflexivity.
Qed.

Lemma AdvanceTimestep_restarts_from_grid_functions_witness :
  Solver.AdvanceTimestep (Scenario.serial true) (Scenario.fresh Solver.BackwardEuler 10) 1
  = Solver.AdvanceTimestep (Scenario.serial true) (Scenario.fresh Solver.BackwardEuler 5) 1.
Proof.
  apply (AdvanceTimestep_restarts_from_grid_functions (Scenario.serial true)
           (Scenario.fresh Solver.BackwardEuler 10) (Scenario.fresh Solver.BackwardEuler 5) 1);
    reflexivity.
Defined.



(* ================================================================== *)
(** * Further properties of [ThermalConductionFunctional] *)

(** X18: the Jacobian callback of the dynamic regime returns [*J_]
    through a null pointer exactly when [dt_] equals [previous_dt_] before
    any Jacobian was assembled.  Once [dt_] differs from [previous_dt_] or a
    Jacobian is stored, no request of a run of requests does; and while
    [dt_] equals [previous_dt_] with no Jacobian stored, every request
    does. *)
Theorem Jacobian_null_only_before_first_assembly (srv : ThermalConduction.Services)
  (this : ThermalConduction.ThermalConductionFunctional) :
  (forall du_dt,
      snd (ThermalConduction.GetGradient srv this du_dt) = None
      <-> ThermalConduction.dt_ this = ThermalConduction.previous_dt_ this
          /\ ThermalConduction.J_ this = None)
  /\ (forall trials,
        ThermalConduction.dt_ this <> ThermalConduction.previous_dt_ this
        \/ ThermalConduction.J_ this <> None ->
        Forall (fun J => J <> None) (ThermalRun.GetGradient_results srv this trials))
  /\ (forall trials,
        ThermalConduction.dt_ this = ThermalConduction.previous_dt_ this ->
        ThermalConduction.J_ this = None ->
        Forall (fun J => J = None) (ThermalRun.GetGradient_results srv this trials)).
Proof.
  split; [| split].
  - intros du_dt.
    destruct (Req_dec_T (ThermalConduction.dt_ this) (ThermalConduction.previous_dt_ this))
      as [Hsame | Hdiff].
    + rewrite GetGradient_same_dt by exact Hsame. cbn [snd]. tauto.
    + rewrite (GetGradient_new_dt srv this du_dt Hdiff). cbn [snd].
      split; [discriminate | intros [Hsame _]; contradiction].
  - intros trials. revert this.
    induction trials as [|du_dt trials IH]; intros this Hsafe;
      cbn [ThermalRun.GetGradient_results]; constructor.
    + destruct (Req_dec_T (ThermalConduction.dt_ this)
                  (ThermalConduction.previous_dt_ this)) as [Hsame | Hdiff].
      * rewrite GetGradient_same_dt by exact Hsame. cbn [snd]. tauto.
      * rewrite (GetGradient_new_dt srv this du_dt Hdiff). discriminate.
    + apply IH.
      destruct (Req_dec_T (ThermalConduction.dt_ this)
                  (ThermalConduction.previous_dt_ this)) as [Hsame | Hdiff].
      * rewrite GetGradient_same_dt by exact Hsame. exact Hsafe.
      * right. rewrite (GetGradient_new_dt srv this du_dt Hdiff). discriminate.
  - intros trials Hsame Hnull.
    induction trials as [|du_dt trials IH];
      cbn [ThermalRun.GetGradient_results]; constructor.
    + rewrite GetGradient_same_dt by exact Hsame. exact Hnull.
    + rewrite GetGradient_same_dt by exact Hsame. exact IH.
Qed.

Lemma advanceTimestep_cases (srv : ThermalConduction.Services)
  (this : ThermalConduction.ThermalConductionFunctional) (dt : double)
  (log : list Message) :
  let started :=
    ThermalConduction.set_temperature this (ThermalConduction.temperature_gf this)
      (ThermalConduction.initializeTrueVec srv (ThermalConduction.temperature_gf this)) in
  (ThermalConduction.is_quasistatic_ this = true
   /\ exists this',
        ThermalConduction.advanceTimestep srv this dt log = (Some (this', dt), log)
        /\ ThermalConduction.temperature_true_vec this'
           = fst (fst (ThermalConduction.nonlin_solver_Mult srv started (fun _ => 0)
                         (ThermalConduction.temperature_true_vec started)))
        /\ ThermalConduction.time_ this' = ThermalConduction.time_ this
        /\ ThermalConduction.u_ this' = ThermalConduction.u_ this
        /\ ThermalConduction.dt_ this' = ThermalConduction.dt_ this
        /\ ThermalConduction.previous_dt_ this' = ThermalConduction.previous_dt_ this)
  \/ (ThermalConduction.is_quasistatic_ this = false
      /\ ThermalConduction.AXOM_DEBUG srv && negb (ThermalConduction.gf_initialized_ this)
         = true
      /\ ThermalConduction.advanceTimestep srv this dt log
         = (None, log ++ [Error ThermalConduction.thermal_state_not_initialized]))
  \/ (ThermalConduction.is_quasistatic_ this = false
      /\ ThermalConduction.AXOM_DEBUG srv && negb (ThermalConduction.gf_initialized_ this)
         = false
      /\ exists this',
           ThermalConduction.advanceTimestep srv this dt log
           = (Some (this',
                    ThermalConduction.step_dt
                      (ThermalConduction.ode_Step srv started
                         (ThermalConduction.temperature_true_vec started)
                         (ThermalConduction.time_ this) dt)),
              log)
           /\ ThermalConduction.time_ this'
              = ThermalConduction.step_t
                  (ThermalConduction.ode_Step srv started
                     (ThermalConduction.temperature_true_vec started)
                     (ThermalConduction.time_ this) dt)).
Proof.
  cbv zeta. unfold ThermalConduction.advanceTimestep, bind, ret.
  destruct this as [gf tv quasistatic initialized time cycle u dt0 previous J mass stiffness].
  cbn [ThermalConduction.is_quasistatic_ ThermalConduction.set_temperature
       ThermalConduction.gf_initialized_ ThermalConduction.temperature_gf
       ThermalConduction.time_ ThermalConduction.temperature_true_vec].
  destruct quasistatic.
  - left. split; [reflexivity |].
    match goal with
    | |- context [ThermalConduction.nonlin_solver_Mult srv ?t ?b ?x] =>
        destruct (ThermalConduction.nonlin_solver_Mult srv t b x) as [[x' answer] J']
    end.
    cbn. eexists. repeat split.
  - right. unfold SLIC_ERROR_IF.
    destruct (ThermalConduction.AXOM_DEBUG srv && negb initialized).
    + left. repeat split.
    + right. split; [reflexivity | split; [reflexivity |]].
      cbn. eexists. repeat split.
Qed.

(** X19: [ThermalConductionFunctional::advanceTimestep] ends in an
    error exactly when the regime is dynamic, the assertions are compiled in
    and the temperature was never set; the message is then the last one
    logged, and a call that returns logs nothing.  After [setTemperature] no
    call ends in the error. *)
Theorem advanceTimestep_aborts_only_uninitialized (srv : ThermalConduction.Services)
  (this : ThermalConduction.ThermalConductionFunctional) (dt : double)
  (log : list Message) :
  (fst (ThermalConduction.advanceTimestep srv this dt log) = None
   <-> ThermalConduction.is_quasistatic_ this = false
       /\ ThermalConduction.AXOM_DEBUG srv = true
       /\ ThermalConduction.gf_initialized_ this = false)
  /\ (fst (ThermalConduction.advanceTimestep srv this dt log) = None ->
      snd (ThermalConduction.advanceTimestep srv this dt log)
      = log ++ [Error ThermalConduction.thermal_state_not_initialized])
  /\ (fst (ThermalConduction.advanceTimestep srv this dt log) <> None ->
      snd (ThermalConduction.advanceTimestep srv this dt log) = log)
  /\ (forall project temp,
        fst (ThermalConduction.advanceTimestep srv
               (ThermalRun.setTemperature project this temp) dt log) <> None).
Proof.
  assert (Hiff : forall t,
            fst (ThermalConduction.advanceTimestep srv t dt log) = None
            <-> ThermalConduction.is_quasistatic_ t = false
                /\ ThermalConduction.AXOM_DEBUG srv = true
                /\ ThermalConduction.gf_initialized_ t = false).
  { intros t.
    destruct (advanceTimestep_cases srv t dt log)
      as [(Hq & this' & Hrun & _) | [(Hq & Hcheck & Hrun) | (Hq & Hcheck & this' & Hrun & _)]];
      rewrite Hrun; cbn [fst].
    - split; [discriminate | intros (Hno & _); congruence].
    - apply andb_prop in Hcheck as [Hdebug Hinit].
      apply negb_true_iff in Hinit. tauto.
    - split; [discriminate |]. intros (_ & Hdebug & Hinit).
      rewrite Hdebug, Hinit in Hcheck. discriminate. }
  split; [apply Hiff | split; [| split]].
  - destruct (advanceTimestep_cases srv this dt log)
      as [(_ & this' & Hrun & _) | [(_ & _ & Hrun) | (_ & _ & this' & Hrun & _)]];
      rewrite Hrun; cbn [fst snd]; try discriminate. reflexivity.
  - destruct (advanceTimestep_cases srv this dt log)
      as [(_ & this' & Hrun & _) | [(_ & _ & Hrun) | (_ & _ & this' & Hrun & _)]];
      rewrite Hrun; cbn [fst snd]; try reflexivity. intros H. contradiction H. reflexivity.
  - intros project temp Hnone. apply Hiff in Hnone as (_ & _ & Hinit).
    unfold ThermalRun.setTemperature in Hinit.
    destruct (project temp _ _) in Hinit. discriminate.
Qed.

(** X20: a quasi-static [advanceTimestep] always returns, logs
    nothing, and leaves the time [time_], the step size [dt] and the members
    [u_], [dt_] and [previous_dt_] of the ODE wrapper as they were; the solve
    starts from the true-dof vector made from the grid function, and the grid
    function after the call is the one distributed from the solution. *)
Theorem advanceTimestep_quasistatic_keeps_time (srv : ThermalConduction.Services)
  (this : ThermalConduction.ThermalConductionFunctional) (dt : double)
  (log : list Message) :
  ThermalConduction.is_quasistatic_ this = true ->
  exists this',
    ThermalConduction.advanceTimestep srv this dt log = (Some (this', dt), log)
    /\ ThermalConduction.time_ this' = ThermalConduction.time_ this
    /\ ThermalConduction.u_ this' = ThermalConduction.u_ this
    /\ ThermalConduction.dt_ this' = ThermalConduction.dt_ this
    /\ ThermalConduction.previous_dt_ this' = ThermalConduction.previous_dt_ this
    /\ ThermalConduction.temperature_true_vec this'
       = fst (fst (ThermalConduction.nonlin_solver_Mult srv
                     (ThermalConduction.set_temperature this
                        (ThermalConduction.temperature_gf this)
                        (ThermalConduction.initializeTrueVec srv
                           (ThermalConduction.temperature_gf this)))
                     (fun _ => 0)
                     (ThermalConduction.initializeTrueVec srv
                        (ThermalConduction.temperature_gf this))))
    /\ ThermalConduction.temperature_gf this'
       = ThermalConduction.distributeSharedDofs srv
           (ThermalConduction.temperature_true_vec this').
Proof.
  intros Hq.
  unfold ThermalConduction.advanceTimestep, bind, ret.
  destruct this as [gf tv quasistatic initialized time cycle u dt0 previous J mass stiffness].
  cbn [ThermalConduction.is_quasistatic_] in Hq. subst quasistatic.
  cbn [ThermalConduction.is_quasistatic_ ThermalConduction.set_temperature
       ThermalConduction.gf_initialized_ ThermalConduction.temperature_gf
       ThermalConduction.time_ ThermalConduction.temperature_true_vec].
  match goal with
  | |- context [ThermalConduction.nonlin_solver_Mult srv ?t ?b ?x] =>
      destruct (ThermalConduction.nonlin_solver_Mult srv t b x) as [[x' answer] J']
  end.
  cbn. eexists. repeat split.
Qed.

Lemma advanceTimestep_quasistatic_keeps_time_witness :
  exists this',
    ThermalConduction.advanceTimestep (Scenario.thermal false)
      (ThermalConduction.constructed true (fun _ => 20) (fun _ => 0)) (1 / 4) []
    = (Some (this', 1 / 4), [])
    /\ ThermalConduction.time_ this' = 0.
Proof.
  destruct (advanceTimestep_quasistatic_keeps_time (Scenario.thermal false)
              (ThermalConduction.constructed true (fun _ => 20) (fun _ => 0))
              (1 / 4) [] eq_refl) as (this' & Hrun & Htime & _).
  exists this'. split; [exact Hrun | exact Htime].
Defined.

(* ================================================================== *)
(** * The kernels of the [QuadratureData] test *)

Section Kernels.

Import QuadratureDataCUDA.

Local Open Scope Z_scope.

(** A kernel whose threads each write at most one cell, with a value that
    the cell decides: after any schedule a cell holds that value if one of
    the threads wrote it, and what it held before otherwise. *)
Lemma run_cell_decides (guard : Thread -> bool) (elem quad : Thread -> Z)
  (value : Z -> Z -> Z) (kernel : Thread -> QuadratureData -> QuadratureData) :
  (forall t d, kernel t d
               = if guard t then assign d (elem t) (quad t) (value (elem t) (quad t))
                 else d) ->
  forall schedule data e q,
    run kernel schedule data e q
    = if existsb (fun t => guard t && (e =? elem t) && (q =? quad t)) schedule
      then value e q else data e q.
Proof.
  intros Hkernel schedule. unfold run.
  induction schedule as [|t schedule IH]; intros data e q; [reflexivity |].
  cbn [fold_left existsb]. rewrite IH, Hkernel.
  destruct (existsb _ schedule); [rewrite orb_true_r; reflexivity |].
  rewrite orb_false_r.
  destruct (guard t); [| reflexivity].
  unfold assign. cbn [andb].
  destruct (Z.eqb_spec e (elem t)) as [-> | _]; [| reflexivity].
  destruct (Z.eqb_spec q (quad t)) as [-> | _]; reflexivity.
Qed.

Lemma existsb_Permutation {A : Type} (f : A -> bool) (l l' : list A) :
  Permutation l l' -> existsb f l = existsb f l'.
Proof.
  intros Hperm.
  destruct (existsb f l) eqn:Hl; destruct (existsb f l') eqn:Hl'; try reflexivity.
  - apply existsb_exists in Hl as (a & Hin & Ha).
    assert (Hex : existsb f l' = true).
    { apply existsb_exists. exists a. split; [| exact Ha].
      eapply Permutation_in; [exact Hperm | exact Hin]. }
    congruence.
  - apply existsb_exists in Hl' as (a & Hin & Ha).
    assert (Hex : existsb f l = true).
    { apply existsb_exists. exists a. split; [| exact Ha].
      eapply Permutation_in; [apply Permutation_sym; exact Hperm | exact Hin]. }
    congruence.
Qed.

Lemma fill_cell_decides (blockDim : dim3) (n nq : Z) (schedule : list Thread)
  (output : QuadratureData) (e q : Z) :
  run (fun t d => fill blockDim t d n nq) schedule output e q
  = if existsb (fun t => (elem_id_of blockDim t <? n) && (quad_id_of t <? nq)
                         && (e =? elem_id_of blockDim t) && (q =? quad_id_of t))
               schedule
    then to_int (e * e + q) else output e q.
Proof.
  apply (run_cell_decides
           (fun t => (elem_id_of blockDim t <? n) && (quad_id_of t <? nq))
           (elem_id_of blockDim) quad_id_of (fun e q => to_int (e * e + q))).
  intros t d. reflexivity.
Qed.

Lemma copy_cell_decides (blockDim : dim3) (n nq : Z) (schedule : list Thread)
  (destination source : QuadratureData) (e q : Z) :
  run (fun t d => copy blockDim t d source n nq) schedule destination e q
  = if existsb (fun t => (elem_id_of blockDim t <? n) && (quad_id_of t <? nq)
                         && (e =? elem_id_of blockDim t) && (q =? quad_id_of t))
               schedule
    then source e q else destination e q.
Proof.
  apply (run_cell_decides
           (fun t => (elem_id_of blockDim t <? n) && (quad_id_of t <? nq))
           (elem_id_of blockDim) quad_id_of source).
  intros t d. reflexivity.
Qed.

Lemma In_upto (n k : Z) : In k (upto n) <-> 0 <= k < n.
Proof.
  unfold upto. rewrite in_map_iff. split.
  - intros (i & <- & Hi). apply in_seq in Hi. lia.
  - intros Hk. exists (Z.to_nat k). split; [lia |]. apply in_seq. lia.
Qed.

Lemma In_threads (gridDim_x : Z) (blockDim : dim3) (t : Thread) :
  In t (threads gridDim_x blockDim)
  <-> 0 <= blockIdx_x t < gridDim_x
      /\ 0 <= threadIdx_x t < x blockDim
      /\ 0 <= threadIdx_y t < y blockDim.
Proof.
  unfold threads. rewrite in_flat_map. split.
  - intros (b & Hb & Hin). rewrite in_flat_map in Hin.
    destruct Hin as (tx & Htx & Hin). rewrite in_map_iff in Hin.
    destruct Hin as (ty & <- & Hty). cbn.
    rewrite In_upto in Hb, Htx, Hty. lia.
  - intros (Hb & Htx & Hty). exists (blockIdx_x t). split; [apply In_upto; exact Hb |].
    rewrite in_flat_map. exists (threadIdx_x t). split; [apply In_upto; exact Htx |].
    rewrite in_map_iff. exists (threadIdx_y t). split; [| apply In_upto; exact Hty].
    destruct t. reflexivity.
Qed.

Lemma to_unsigned_small (z : Z) : 0 <= z < 2 ^ 32 -> to_unsigned z = z.
Proof. intros Hz. unfold to_unsigned. apply Z.mod_small. exact Hz. Qed.

Lemma to_int_small (z : Z) : - 2 ^ 31 <= z < 2 ^ 31 -> to_int z = z.
Proof.
  intros Hz. unfold to_int. rewrite Z.mod_small; lia.
Qed.

(** The launch geometry of the test. *)
Lemma test_geometry (n nq : Z) :
  0 <= n < 2 ^ 31 -> 1 <= nq <= 64 ->
  grids n = n / 16 /\ blocks nq = {| x := 16; y := nq |}
  /\ (launch_valid (grids n) (blocks nq) = false -> n / 16 = 0).
Proof.
  intros Hn Hnq.
  assert (Hg : grids n = n / 16).
  { unfold grids, elements_per_block. rewrite Z.quot_div_nonneg by lia.
    apply to_unsigned_small.
    assert (0 <= n / 16) by (apply Z.div_pos; lia).
    assert (n / 16 <= n) by (apply Z.div_le_upper_bound; lia). lia. }
  assert (Hb : blocks nq = {| x := 16; y := nq |}).
  { unfold blocks, elements_per_block. rewrite !to_unsigned_small by lia. reflexivity. }
  split; [exact Hg | split; [exact Hb |]].
  rewrite Hg, Hb. unfold launch_valid. cbn [x y].
  assert (0 <= n / 16) by (apply Z.div_pos; lia).
  intros Hvalid.
  destruct (Z.leb_spec 1 (n / 16)) as [Hpos | Hzero]; [| lia].
  destruct (Z.leb_spec 1 nq); [| lia].
  destruct (Z.leb_spec (16 * nq) 1024); [| lia].
  cbn in Hvalid. discriminate.
Qed.

(** Which cells the threads of the test's launch write. *)
Lemma test_cells_written (n nq e q : Z) :
  0 <= n < 2 ^ 31 -> 1 <= nq <= 64 ->
  existsb (fun t => (elem_id_of {| x := 16; y := nq |} t <? n) && (quad_id_of t <? nq)
                    && (e =? elem_id_of {| x := 16; y := nq |} t)
                    && (q =? quad_id_of t))
          (threads (n / 16) {| x := 16; y := nq |})
  = (0 <=? e) && (e <? 16 * (n / 16)) && (0 <=? q) && (q <? nq).
Proof.
  intros Hn Hnq.
  assert (Hdiv : 16 * (n / 16) <= n) by (apply Z.mul_div_le; lia).
  assert (Hid : forall t, In t (threads (n / 16) {| x := 16; y := nq |}) ->
                  elem_id_of {| x := 16; y := nq |} t = threadIdx_x t + blockIdx_x t * 16
                  /\ quad_id_of t = threadIdx_y t).
  { intros t Ht. apply In_threads in Ht. cbn [x y] in Ht.
    unfold elem_id_of, quad_id_of. cbn [x].
    rewrite to_unsigned_small by lia. rewrite !to_int_small by lia. split; reflexivity. }
  match goal with |- ?lhs = ?rhs => destruct rhs eqn:Hcell end.
  - apply existsb_exists.
    apply andb_prop in Hcell as [Hcell Hq2]. apply andb_prop in Hcell as [Hcell Hq1].
    apply andb_prop in Hcell as [He1 He2].
    apply Z.leb_le in He1, Hq1. apply Z.ltb_lt in He2, Hq2.
    set (t := {| blockIdx_x := e / 16; threadIdx_x := e mod 16; threadIdx_y := q |}).
    assert (Hmod : 0 <= e mod 16 < 16) by (apply Z.mod_pos_bound; lia).
    assert (Hquo : 0 <= e / 16 < n / 16).
    { split; [apply Z.div_pos; lia |]. apply Z.div_lt_upper_bound; lia. }
    assert (Ht : In t (threads (n / 16) {| x := 16; y := nq |})).
    { apply In_threads. cbn. lia. }
    destruct (Hid t Ht) as [Helem Hquad]. cbn [t threadIdx_x blockIdx_x threadIdx_y] in *.
    assert (Hsum : e mod 16 + e / 16 * 16 = e).
    { pose proof (Z.div_mod e 16). lia. }
    exists t. split; [exact Ht |]. rewrite Helem, Hquad, Hsum.
    repeat (apply andb_true_intro; split);
      try (apply Z.ltb_lt; lia); apply Z.eqb_eq; reflexivity.
  - apply not_true_is_false. intros Hex.
    apply existsb_exists in Hex as (t & Ht & Hw).
    destruct (Hid t Ht) as [Helem Hquad]. apply In_threads in Ht. cbn [x y] in Ht.
    rewrite Helem, Hquad in Hw.
    apply andb_prop in Hw as [Hw Hq]. apply andb_prop in Hw as [Hw He].
    apply Z.eqb_eq in Hq, He.
    assert (He1 : (0 <=? e) = true) by (apply Z.leb_le; lia).
    assert (He2 : (e <? 16 * (n / 16)) = true) by (apply Z.ltb_lt; lia).
    assert (Hq1 : (0 <=? q) = true) by (apply Z.leb_le; lia).
    assert (Hq2 : (q <? nq) = true) by (apply Z.ltb_lt; lia).
    rewrite He1, He2, Hq1, Hq2 in Hcell. discriminate.
Qed.

(** A launch of the test, cell by cell. *)
Lemma test_launch_cells (n nq : Z) (value : Z -> Z -> Z)
  (kernel : Thread -> QuadratureData -> QuadratureData)
  (schedule : list Thread) (data : QuadratureData) (e q : Z) :
  0 <= n < 2 ^ 31 -> 1 <= nq <= 64 ->
  Permutation schedule (threads (grids n) (blocks nq)) ->
  (forall schedule data e q,
     run kernel schedule data e q
     = if existsb (fun t => (elem_id_of (blocks nq) t <? n) && (quad_id_of t <? nq)
                            && (e =? elem_id_of (blocks nq) t) && (q =? quad_id_of t))
                  schedule
       then value e q else data e q) ->
  launch (grids n) (blocks nq) kernel schedule data e q
  = if (0 <=? e) && (e <? 16 * (n / 16)) && (0 <=? q) && (q <? nq)
    then value e q else data e q.
Proof.
  intros Hn Hnq Hperm Hkernel.
  destruct (test_geometry n nq Hn Hnq) as (Hg & Hb & Hvalid).
  unfold launch. destruct (launch_valid (grids n) (blocks nq)).
  - rewrite Hkernel. rewrite (existsb_Permutation _ _ _ Hperm).
    rewrite Hg, Hb. rewrite test_cells_written by assumption. reflexivity.
  - rewrite (Hvalid eq_refl). 
    destruct (Z.leb_spec 0 e); [| reflexivity].
    destruct (Z.ltb_spec e (16 * 0)); [lia | reflexivity].
Qed.

End Kernels.

(** X21: the kernels [fill] and [copy] do not race: whatever the
    order in which the threads of a launch take effect, every cell holds the
    same value afterwards. *)
Theorem kernels_do_not_race (blockDim : QuadratureDataCUDA.dim3)
  (num_elements num_quadrature_points : Z)
  (schedule schedule' : list QuadratureDataCUDA.Thread)
  (data source : QuadratureDataCUDA.QuadratureData) (e q : Z) :
  Permutation schedule schedule' ->
  QuadratureDataCUDA.run
    (fun t d => QuadratureDataCUDA.fill blockDim t d num_elements num_quadrature_points)
    schedule data e q
  = QuadratureDataCUDA.run
      (fun t d => QuadratureDataCUDA.fill blockDim t d num_elements num_quadrature_points)
      schedule' data e q
  /\ QuadratureDataCUDA.run
       (fun t d => QuadratureDataCUDA.copy blockDim t d source
                     num_elements num_quadrature_points)
       schedule data e q
     = QuadratureDataCUDA.run
         (fun t d => QuadratureDataCUDA.copy blockDim t d source
                       num_elements num_quadrature_points)
         schedule' data e q.
Proof.
  intros Hperm. rewrite !fill_cell_decides, !copy_cell_decides.
  rewrite (existsb_Permutation _ _ _ Hperm). split; reflexivity.
Qed.

(** X22: the launch of [fill] in the test, with [num_elements / 16]
    blocks of 16 elements: every quadrature point of the elements below
    [16 * (num_elements / 16)] is filled with [elem_id * elem_id + quad_id],
    the elements from there on are left as they were, and nothing is written
    outside the data of the mesh. *)
Theorem fill_leaves_the_last_elements (num_elements num_quadrature_points : Z)
  (schedule : list QuadratureDataCUDA.Thread)
  (source : QuadratureDataCUDA.QuadratureData) :
  (0 <= num_elements < 2 ^ 31)%Z -> (1 <= num_quadrature_points <= 64)%Z ->
  Permutation schedule
    (QuadratureDataCUDA.threads (QuadratureDataCUDA.grids num_elements)
       (QuadratureDataCUDA.blocks num_quadrature_points)) ->
  let filled :=
    QuadratureDataCUDA.launch (QuadratureDataCUDA.grids num_elements)
      (QuadratureDataCUDA.blocks num_quadrature_points)
      (fun t output =>
         QuadratureDataCUDA.fill (QuadratureDataCUDA.blocks num_quadrature_points) t output
           num_elements num_quadrature_points)
      schedule source in
  (forall e q, (0 <= e < 16 * (num_elements / 16))%Z -> (0 <= q < num_quadrature_points)%Z ->
     filled e q = QuadratureDataCUDA.to_int (e * e + q)
     /\ ((e * e + q < 2 ^ 31)%Z -> filled e q = (e * e + q)%Z))
  /\ (forall e q, (16 * (num_elements / 16) <= e)%Z -> filled e q = source e q)
  /\ (forall e q,
        ~ ((0 <= e < num_elements)%Z /\ (0 <= q < num_quadrature_points)%Z) ->
        filled e q = source e q).
Proof.
  intros Hn Hnq Hperm filled.
  assert (Hdiv : (16 * (num_elements / 16) <= num_elements)%Z)
    by (apply Z.mul_div_le; lia).
  assert (Hcells : forall e q,
            filled e q
            = if ((0 <=? e) && (e <? 16 * (num_elements / 16))
                  && (0 <=? q) && (q <? num_quadrature_points))%Z
              then QuadratureDataCUDA.to_int (e * e + q) else source e q).
  { intros e q. subst filled.
    apply (test_launch_cells num_elements num_quadrature_points
             (fun e q => QuadratureDataCUDA.to_int (e * e + q))); try assumption.
    intros. apply fill_cell_decides. }
  split; [| split].
  - intros e q He Hq. rewrite Hcells.
    destruct (Z.leb_spec 0 e); [| lia].
    destruct (Z.ltb_spec e (16 * (num_elements / 16))); [| lia].
    destruct (Z.leb_spec 0 q); [| lia].
    destruct (Z.ltb_spec q num_quadrature_points); [| lia].
    cbn [andb]. split; [reflexivity |].
    intros Hsmall. apply to_int_small. nia.
  - intros e q He. rewrite Hcells.
    destruct (Z.ltb_spec e (16 * (num_elements / 16))); [lia |].
    rewrite andb_false_r. reflexivity.
  - intros e q Hout. rewrite Hcells.
    destruct (Z.leb_spec 0 e); [| reflexivity].
    destruct (Z.ltb_spec e (16 * (num_elements / 16))); [| reflexivity].
    destruct (Z.leb_spec 0 q); [| reflexivity].
    destruct (Z.ltb_spec q num_quadrature_points); [| reflexivity].
    exfalso. apply Hout. lia.
Qed.

Lemma kernels_do_not_race_witness :
  let blockDim := {| QuadratureDataCUDA.x := 16%Z; QuadratureDataCUDA.y := 4%Z |} in
  let first := {| QuadratureDataCUDA.blockIdx_x := 0%Z; QuadratureDataCUDA.threadIdx_x := 0%Z;
                  QuadratureDataCUDA.threadIdx_y := 0%Z |} in
  let second := {| QuadratureDataCUDA.blockIdx_x := 0%Z; QuadratureDataCUDA.threadIdx_x := 1%Z;
                   QuadratureDataCUDA.threadIdx_y := 0%Z |} in
  QuadratureDataCUDA.run
    (fun t d => QuadratureDataCUDA.fill blockDim t d 20 4)
    [first; second] (fun _ _ => 0%Z) 1%Z 0%Z
  = QuadratureDataCUDA.run
      (fun t d => QuadratureDataCUDA.fill blockDim t d 20 4)
      [second; first] (fun _ _ => 0%Z) 1%Z 0%Z
  /\ QuadratureDataCUDA.run
       (fun t d => QuadratureDataCUDA.copy blockDim t d (fun _ _ => 7%Z) 20 4)
       [first; second] (fun _ _ => 0%Z) 1%Z 0%Z
     = QuadratureDataCUDA.run
         (fun t d => QuadratureDataCUDA.copy blockDim t d (fun _ _ => 7%Z) 20 4)
         [second; first] (fun _ _ => 0%Z) 1%Z 0%Z.
Proof.
  cbv zeta. apply kernels_do_not_race. apply perm_swap.
Defined.

Lemma fill_leaves_the_last_elements_witness :
  QuadratureDataCUDA.launch (QuadratureDataCUDA.grids 20) (QuadratureDataCUDA.blocks 4)
    (fun t output =>
       QuadratureDataCUDA.fill (QuadratureDataCUDA.blocks 4) t output 20 4)
    (QuadratureDataCUDA.threads (QuadratureDataCUDA.grids 20) (QuadratureDataCUDA.blocks 4))
    (fun _ _ => (-1)%Z) 17%Z 0%Z
  = (-1)%Z.
Proof.
  refine (proj1 (proj2 (fill_leaves_the_last_elements 20 4
                          (QuadratureDataCUDA.threads (QuadratureDataCUDA.grids 20)
                             (QuadratureDataCUDA.blocks 4))
                          (fun _ _ => (-1)%Z) _ _ _)) 17%Z 0%Z _).
  - lia.
  - lia.
  - apply Permutation_refl.
  - vm_compute. discriminate.
Defined.

Section TestKernels.

Import QuadratureDataCUDA.

Local Open Scope Z_scope.

Lemma equal_cells (n nq : Z) (a b : QuadratureData) :
  equal n nq a b = true
  <-> forall e q, 0 <= e < n -> 0 <= q < nq -> a e q = b e q.
Proof.
  unfold equal. rewrite forallb_forall. split.
  - intros Hall e q He Hq.
    pose proof (Hall e (proj2 (In_upto n e) He)) as Hrow.
    rewrite forallb_forall in Hrow.
    apply Z.eqb_eq. apply Hrow. apply In_upto. exact Hq.
  - intros Hall e He. rewrite forallb_forall. intros q Hq.
    apply Z.eqb_eq. apply Hall; apply In_upto; assumption.
Qed.

End TestKernels.

(** X23: the test [basic_fill_and_copy]: after the two launches the
    destination agrees with the source on every element below
    [16 * (num_elements / 16)]; the elements from there on are neither
    filled nor copied, so the comparison succeeds exactly when the source and
    the destination agreed on them before the launches, and it always does
    when [num_elements] is a multiple of 16. *)
Theorem basic_fill_and_copy_compares_what_was_there
  (num_elements num_quadrature_points : Z)
  (fill_schedule copy_schedule : list QuadratureDataCUDA.Thread)
  (source destination : QuadratureDataCUDA.QuadratureData) :
  (0 <= num_elements < 2 ^ 31)%Z -> (1 <= num_quadrature_points <= 64)%Z ->
  Permutation fill_schedule
    (QuadratureDataCUDA.threads (QuadratureDataCUDA.grids num_elements)
       (QuadratureDataCUDA.blocks num_quadrature_points)) ->
  Permutation copy_schedule
    (QuadratureDataCUDA.threads (QuadratureDataCUDA.grids num_elements)
       (QuadratureDataCUDA.blocks num_quadrature_points)) ->
  let result :=
    QuadratureDataCUDA.basic_fill_and_copy num_elements num_quadrature_points
      fill_schedule copy_schedule source destination in
  let source' := fst (fst result) in
  let destination' := snd (fst result) in
  (forall e q, (0 <= e < 16 * (num_elements / 16))%Z -> (0 <= q < num_quadrature_points)%Z ->
     destination' e q = source' e q)
  /\ (forall e q, (16 * (num_elements / 16) <= e)%Z ->
        source' e q = source e q /\ destination' e q = destination e q)
  /\ (snd result = true
      <-> forall e q, (16 * (num_elements / 16) <= e < num_elements)%Z ->
                      (0 <= q < num_quadrature_points)%Z ->
                      source e q = destination e q)
  /\ ((num_elements mod 16 = 0)%Z -> snd result = true).
Proof.
  intros Hn Hnq Hfill Hcopy result source' destination'.
  assert (Hdiv : (16 * (num_elements / 16) <= num_elements)%Z)
    by (apply Z.mul_div_le; lia).
  assert (Hquot : (0 <= num_elements / 16)%Z) by (apply Z.div_pos; lia).
  assert (Hsource : forall e q,
            source' e q
            = if ((0 <=? e) && (e <? 16 * (num_elements / 16))
                  && (0 <=? q) && (q <? num_quadrature_points))%Z
              then QuadratureDataCUDA.to_int (e * e + q) else source e q).
  { intros e q. subst source' result. unfold QuadratureDataCUDA.basic_fill_and_copy.
    cbn [fst snd].
    apply (test_launch_cells num_elements num_quadrature_points
             (fun e q => QuadratureDataCUDA.to_int (e * e + q))); try assumption.
    intros. apply fill_cell_decides. }
  assert (Hdestination : forall e q,
            destination' e q
            = if ((0 <=? e) && (e <? 16 * (num_elements / 16))
                  && (0 <=? q) && (q <? num_quadrature_points))%Z
              then source' e q else destination e q).
  { intros e q. subst destination' source' result.
    unfold QuadratureDataCUDA.basic_fill_and_copy. cbn [fst snd].
    apply (test_launch_cells num_elements num_quadrature_points); try assumption.
    intros. apply copy_cell_decides. }
  assert (Hin : forall e q,
            (0 <= e < 16 * (num_elements / 16))%Z -> (0 <= q < num_quadrature_points)%Z ->
            ((0 <=? e) && (e <? 16 * (num_elements / 16))
             && (0 <=? q) && (q <? num_quadrature_points))%Z = true).
  { intros e q He Hq.
    repeat (apply andb_true_intro; split);
      try (apply Z.leb_le; lia); apply Z.ltb_lt; lia. }
  assert (Hout : forall e q,
            (16 * (num_elements / 16) <= e)%Z ->
            ((0 <=? e) && (e <? 16 * (num_elements / 16))
             && (0 <=? q) && (q <? num_quadrature_points))%Z = false).
  { intros e q He.
    destruct (Z.ltb_spec e (16 * (num_elements / 16))); [lia |].
    rewrite andb_false_r. reflexivity. }
  assert (Hexpect : snd result = true
            <-> forall e q, (16 * (num_elements / 16) <= e < num_elements)%Z ->
                            (0 <= q < num_quadrature_points)%Z ->
                            source e q = destination e q).
  { change (snd result)
      with (QuadratureDataCUDA.equal num_elements num_quadrature_points
              source' destination').
    rewrite equal_cells. split.
    - intros Hall e q He Hq.
      pose proof (Hall e q ltac:(lia) Hq) as Heq.
      rewrite Hsource, Hdestination, (Hout e q) in Heq by lia. exact Heq.
    - intros Htail e q He Hq.
      destruct (Z.lt_ge_cases e (16 * (num_elements / 16))) as [Hlow | Hhigh].
      + rewrite (Hdestination e q), (Hin e q) by lia. reflexivity.
      + rewrite Hsource, Hdestination, (Hout e q) by lia. apply Htail; lia. }
  split; [| split; [| split]].
  - intros e q He Hq. rewrite Hdestination, (Hin e q He Hq). reflexivity.
  - intros e q He. rewrite Hsource, Hdestination, (Hout e q He). split; reflexivity.
  - exact Hexpect.
  - intros Hmod. apply Hexpect. intros e q He Hq.
    assert (num_elements = 16 * (num_elements / 16))%Z.
    { pose proof (Z.div_mod num_elements 16). lia. }
    lia.
Qed.

Lemma basic_fill_and_copy_compares_what_was_there_witness :
  snd (QuadratureDataCUDA.basic_fill_and_copy 32 4
         (QuadratureDataCUDA.threads (QuadratureDataCUDA.grids 32) (QuadratureDataCUDA.blocks 4))
         (QuadratureDataCUDA.threads (QuadratureDataCUDA.grids 32) (QuadratureDataCUDA.blocks 4))
         (fun _ _ => 0%Z) (fun _ _ => 1%Z))
  = true.
Proof.
  refine (proj2 (proj2 (proj2 (basic_fill_and_copy_compares_what_was_there 32 4
                                 (QuadratureDataCUDA.threads (QuadratureDataCUDA.grids 32)
                                    (QuadratureDataCUDA.blocks 4))
                                 (QuadratureDataCUDA.threads (QuadratureDataCUDA.grids 32)
                                    (QuadratureDataCUDA.blocks 4))
                                 (fun _ _ => 0%Z) (fun _ _ => 1%Z) _ _ _ _))) _).
  - lia.
  - lia.
  - apply Permutation_refl.
  - apply Permutation_refl.
  - reflexivity.
Defined.
